(** * Video scene search (Video_Search_I2T.ipynb): a shallow embedding

    The notebook's [VideoProcessor] detects scenes with PySceneDetect, samples
    each scene's frames with OpenCV, captions every frame with BLIP, embeds
    the captions and the query with CLIP, scores a scene by the mean of
    [torch.nn.functional.cosine_similarity] and writes the best scene out.

    Conventions of the embedding:
    - Python exceptions are an error monad [exc]; [try ... except Exception]
      is [try_except].
    - Tensor elements are exact rationals ([Q]): rounding of 32-bit floats,
      infinities and NaN are not modelled.
    - The pretrained models and the decoders are black boxes, taken as
      Section variables: a call either returns a value or raises.
    - Logging calls have no influence on any result and are left out. *)

From Stdlib Require Import String.
From Stdlib Require Import List ZArith QArith Qabs Qminmax Lia Lqa Bool.
From Stdlib Require Import Permutation Sorted.
Import ListNotations.

Local Open Scope Q_scope.

(** ** Python exceptions *)

Module Py.

Inductive exn : Type :=
| TypeError      (* an argument of the wrong type, e.g. None for a Tensor *)
| RuntimeError   (* torch: empty stack, shapes that do not match *)
| OSError        (* scenedetect.open_video: the video cannot be opened *)
| ModelError.    (* anything raised inside a model call *)

Inductive exc (A : Type) : Type :=
| Ok (a : A)
| Raise (e : exn).

Arguments Ok {A} a.
Arguments Raise {A} e.

Definition bind {A B : Type} (m : exc A) (k : A -> exc B) : exc B :=
  match m with
  | Ok a => k a
  | Raise e => Raise e
  end.

(** [try: m except Exception: h] *)
Definition try_except {A : Type} (m : exc A) (h : exn -> A) : A :=
  match m with
  | Ok a => a
  | Raise e => h e
  end.

(** A model call that yields [None] raised. *)
Definition call {A : Type} (r : option A) : exc A :=
  match r with
  | Some a => Ok a
  | None => Raise ModelError
  end.

(** [range(a, b)] *)
Definition range (a b : Z) : list Z :=
  map (fun i => (a + Z.of_nat i)%Z) (seq 0 (Z.to_nat (b - a))).

End Py.

Import Py.

Notation "x <- m ;; k" := (Py.bind m (fun x => k))
  (at level 61, m at next level, right associativity).

(** ** The part of torch the notebook uses

    Library model (PyTorch 2.x): [torch.stack], [cosine_similarity] with
    its broadcasting and its default [dim=1], and [mean], on the shapes the
    notebook produces. *)

Module Torch.

(** What [CLIPModel.get_text_features] returns for a batch of ONE text: a
    tensor of shape (1, D) with D >= 1, kept as the first component of its
    single row and the D - 1 others. *)
Record Tensor : Type := mkTensor { t_hd : Q; t_tl : list Q }.

Definition row (t : Tensor) : list Q := t_hd t :: t_tl t.

(** The last axis' size, D. *)
Definition dim (t : Tensor) : nat := List.length (row t).

(** [torch.stack(tensors)] (dim=0) of shape-(1, D) tensors: a tensor of shape
    (n, 1, D), kept as the list of its n rows.  It raises on an empty list
    (RuntimeError), on an element that is not a Tensor (TypeError; here
    [None]) and on tensors of unequal size (RuntimeError). *)
Fixpoint all_tensors (l : list (option Tensor)) : option (list Tensor) :=
  match l with
  | [] => Some []
  | None :: _ => None
  | Some t :: l' =>
      match all_tensors l' with
      | Some ts => Some (t :: ts)
      | None => None
      end
  end.

Definition same_size (d : nat) (ts : list Tensor) : bool :=
  forallb (fun t => Nat.eqb (dim t) d) ts.

Definition stack (l : list (option Tensor)) : exc (list Tensor) :=
  match all_tensors l with
  | None => Raise TypeError
  | Some [] => Raise RuntimeError
  | Some (t :: ts) =>
      if same_size (dim t) ts then Ok (t :: ts) else Raise RuntimeError
  end.

(** [eps] of [cosine_similarity], 1e-8. *)
Definition eps : Q := 1 # 100000000.

(** A vector of ONE component [a] divided by [max(norm, eps)]: its 2-norm
    is [|a|]. *)
Definition unit1 (a : Q) : Q := a / Qmax (Qabs a) eps.

(** Cosine similarity of two one-component vectors:
    x1 . x2 / (max(|x1|, eps) * max(|x2|, eps)). *)
Definition cos1 (a b : Q) : Q := unit1 a * unit1 b.

(** Broadcasting of the last axis: equal sizes, or one of them is 1. *)
Definition broadcast_last (x y : list Q) : exc (list (Q * Q)) :=
  if Nat.eqb (List.length x) (List.length y) then Ok (combine x y)
  else if Nat.eqb (List.length x) 1 then Ok (map (fun b => (hd 0 x, b)) y)
  else if Nat.eqb (List.length y) 1 then Ok (map (fun a => (a, hd 0 y)) x)
  else Raise RuntimeError.

(** [torch.nn.functional.cosine_similarity(x1, x2)] with the default [dim=1],
    for [x1] of shape (1, D1) and [x2] of shape (n, 1, D2).  The two are
    broadcast to the common shape (n, 1, D); [dim] refers to that shape, so
    the similarity is taken along axis 1, whose size is 1, and the result
    has shape (n, D): entry (i, j) is the cosine similarity of the
    one-component vectors [x1[0][j]] and [x2[i][0][j]].  [None] for [x1] is
    a TypeError. *)
Definition cos_row (x1 : list Q) (t : Tensor) : exc (list Q) :=
  ps <- broadcast_last x1 (row t) ;;
  Ok (map (fun p => cos1 (fst p) (snd p)) ps).

Fixpoint cos_rows (x1 : list Q) (x2 : list Tensor) : exc (list (list Q)) :=
  match x2 with
  | [] => Ok []
  | t :: x2' =>
      r <- cos_row x1 t ;;
      rest <- cos_rows x1 x2' ;;
      Ok (r :: rest)
  end.

Definition cosine_similarity (x1 : option Tensor) (x2 : list Tensor)
  : exc (list (list Q)) :=
  match x1 with
  | None => Raise TypeError
  | Some q => cos_rows (row q) x2
  end.

Definition Qsum (l : list Q) : Q := fold_right Qplus 0 l.

(** [t.mean().item()]: the mean of ALL the entries of [t]. *)
Definition mean (t : list (list Q)) : Q :=
  Qsum (concat t) / inject_Z (Z.of_nat (List.length (concat t))).

(** The range of a cosine similarity. *)
Definition in_unit (x : Q) : Prop := -1 <= x <= 1.

End Torch.

Import Torch.

(** ** The part of PySceneDetect the notebook uses

    Library model (PySceneDetect 0.6, the release that introduced
    [open_video]): [scene_manager.get_scene_list()] builds the scenes from
    the cuts the detector found and, unless [start_in_scene] is passed as
    True, returns NO scene when no cut was found.  A scene is the pair of
    its first frame number and of the frame number just after its last. *)

Module SceneDetect.

Fixpoint scenes_from (last_cut : Z) (cut_list : list Z) (end_pos : Z)
  : list (Z * Z) :=
  match cut_list with
  | [] => [(last_cut, end_pos)]
  | cut :: cuts => (last_cut, cut) :: scenes_from cut cuts end_pos
  end.

Definition get_scenes_from_cuts (cut_list : list Z) (start_pos end_pos : Z)
  : list (Z * Z) :=
  scenes_from start_pos cut_list end_pos.

Definition is_empty {A : Type} (l : list A) : bool :=
  match l with [] => true | _ => false end.

Definition get_scene_list (cut_list : list Z) (start_pos end_pos : Z)
    (start_in_scene : bool) : list (Z * Z) :=
  let scene_list := get_scenes_from_cuts cut_list start_pos end_pos in
  if is_empty cut_list && negb start_in_scene then [] else scene_list.

End SceneDetect.

(** ** VideoProcessor *)

Module VideoProcessor.

Section Methods.

(** A decoded frame. *)
Variable Frame : Type.

(** BLIP: [blip_processor], [blip_model.generate] and [decode] on one frame;
    [None] when one of them raises. *)
Variable blip_caption : Frame -> option string.

(** CLIP: [processor(text=[query], ...)] and [model.get_text_features] on a
    batch of one text; [None] when one of them raises. *)
Variable clip_text_features : string -> option Tensor.

(** [VideoProcessor()]: loading the four pretrained models returns;
    [false] when it raises. *)
Variable models_load : bool.

(** A video file as the two decoders see it. *)
Record Video : Type := mkVideo {
  can_open : bool;               (* scenedetect.open_video succeeds *)
  frame_count : Z;               (* frames the SceneManager processed *)
  content_cuts : list Z;         (* cuts found by ContentDetector, ascending *)
  frame_at : Z -> option Frame   (* cv2: seek to a frame, then read it *)
}.

(** [cv2.VideoWriter(output_video_path, mp4v, fps, size)] for the frame
    rate and the size of the video: whether OpenCV opens a writer for that
    file name.  The notebook never tests it; writing to a writer that did
    not open does nothing and raises nothing. *)
Variable writer_opens : Video -> string -> bool.

(** [ret] of [ret, frame = cap.read()] after seeking to frame [t]. *)
Definition decodes (video : Video) (t : Z) : bool :=
  match frame_at video t with Some _ => true | None => false end.

Definition detect_scenes (video : Video) : exc (list (Z * Z)) :=
  if can_open video
  then Ok (SceneDetect.get_scene_list (content_cuts video) 0
             (frame_count video) false)
  else Raise OSError.

(** The loop of [extract_frames]: [frames] is the list built so far.  Every
    turn seeks to frame [t] before it reads, so the seek before the loop
    and the position left by the previous read play no part. *)
Fixpoint read_frames (video : Video) (ts : list Z) (frames : list Frame)
  : list Frame :=
  match ts with
  | [] => frames
  | t :: ts' =>
      read_frames video ts'
        (match frame_at video t with
         | Some frame => frames ++ [frame]
         | None => frames
         end)
  end.

Definition extract_frames (video : Video) (scene_start scene_end : Z)
  : list Frame :=
  read_frames video (range scene_start (scene_end + 1)) [].

(** Returns the embedding, or Python's [None] after an exception. *)
Definition get_query_embedding (query : string) : option Tensor :=
  try_except
    (query_embedding <- call (clip_text_features query) ;;
     Ok (Some query_embedding))
    (fun _ => None).

(** The loop of [compute_I2T_embeddings]. *)
Fixpoint caption_embeddings (frames : list Frame)
    (query_embeddings : list (option Tensor)) : list (option Tensor) :=
  match frames with
  | [] => query_embeddings
  | frame :: frames' =>
      caption_embeddings frames'
        (try_except
           (query <- call (blip_caption frame) ;;
            Ok (query_embeddings ++ [get_query_embedding query]))
           (fun _ => query_embeddings))
  end.

Definition compute_I2T_embeddings (frames : list Frame) : exc (list Tensor) :=
  stack (caption_embeddings frames []).

Definition process_scene (frames_in_scene : list Frame)
    (query_embedding : option Tensor) : Q :=
  try_except
    (scene_embeddings <- compute_I2T_embeddings frames_in_scene ;;
     similarities <- cosine_similarity query_embedding scene_embeddings ;;
     Ok (mean similarities))
    (fun _ => -1).

(** [extract_scene_from_video]: the files it leaves.  When the writer
    opened, one file, given as its path and the frames written to it; when
    it did not, none, and the function returns as if it had written. *)
Definition extract_scene_from_video (video : Video) (scene_start scene_end : Z)
    (output_video_path : string) : list (string * list Frame) :=
  let frames := read_frames video (range scene_start (scene_end + 1)) [] in
  if writer_opens video output_video_path
  then [(output_video_path, frames)]
  else [].

(** [a > b] on numbers. *)
Definition Qgtb (a b : Q) : bool := negb (Qle_bool a b).

(** The variables of step 4 of [process_video]. *)
Record best : Type := mkBest {
  top_scene : option (Z * Z);
  highest_similarity : Q
}.

Definition best_init : best :=
  {| top_scene := None; highest_similarity := -1 |}.

(** One turn of the loop of step 4, the scene already scored. *)
Definition update_best (b : best) (scored : Q * (Z * Z)) : best :=
  let '(scene_similarity, scene) := scored in
  if Qgtb scene_similarity (highest_similarity b)
  then {| top_scene := Some scene; highest_similarity := scene_similarity |}
  else b.

Definition select_scene (b : best) (scored : list (Q * (Z * Z))) : best :=
  fold_left update_best scored b.

(** Step 4 as written: scoring and selection in one loop. *)
Definition score_and_select (query_embedding : option Tensor)
    (frames : list (list Frame * Z * Z)) (b : best) : best :=
  fold_left
    (fun b fr =>
       let '(frames_in_scene, scene_start, scene_end) := fr in
       update_best b
         (process_scene frames_in_scene query_embedding,
          (scene_start, scene_end)))
    frames b.

(** The scenes of a run with their scores, in detection order. *)
Definition scored_scenes (query_embedding : option Tensor)
    (frames : list (list Frame * Z * Z)) : list (Q * (Z * Z)) :=
  map (fun fr : list Frame * Z * Z =>
         let '(frames_in_scene, scene_start, scene_end) := fr in
         (process_scene frames_in_scene query_embedding,
          (scene_start, scene_end)))
      frames.

(** Step 2 of [process_video]: the frames of every scene. *)
Definition scene_frames (video : Video) (scene_list : list (Z * Z))
  : list (list Frame * Z * Z) :=
  map (fun scene : Z * Z =>
         let '(scene_start, scene_end) := scene in
         (extract_frames video scene_start scene_end,
          scene_start, scene_end))
      scene_list.

(** What a run leaves behind: the value returned and the files written. *)
Record outcome : Type := mkOutcome {
  returned : option string;
  written : list (string * list Frame)
}.

Definition process_video (video : Video) (query : string)
    (output_scene_path : string) : exc outcome :=
  scene_list <- detect_scenes video ;;
  let frames := scene_frames video scene_list in
  let query_embedding := get_query_embedding query in
  let b := score_and_select query_embedding frames best_init in
  match top_scene b with
  | Some (scene_start, scene_end) =>
      Ok {| returned := Some output_scene_path;
            written := extract_scene_from_video video scene_start scene_end
                         output_scene_path |}
  | None => Ok {| returned := None; written := [] |}
  end.

(** Truth value of a Python string. *)
Definition truthy (s : string) : bool :=
  match s with EmptyString => false | _ => true end.

(** The interface function [process_video_with_gradio], outside the class:
    the pair (video, message) it returns, or Python's [None] when an
    exception was caught.  [video_file] is [None] when no video was
    uploaded; [stamp] is the formatted current time.  Once the inputs are
    checked the function builds a [VideoProcessor], which loads the models
    inside the [try]. *)
Definition process_video_with_gradio (video_file : option Video)
    (query : string) (stamp : string)
  : option (option string * option string) :=
  try_except
    (match video_file with
     | Some video =>
         if truthy query then
           _ <- (if models_load then Ok tt else Raise ModelError) ;;
           out <- process_video video query ("output_" ++ stamp) ;;
           match returned out with
           | Some output_scene_path =>
               if truthy output_scene_path
               then Ok (Some (Some output_scene_path, None))
               else Ok (Some (None, Some "No relevant scene found."%string))
           | None => Ok (Some (None, Some "No relevant scene found."%string))
           end
         else Ok (Some (None,
                Some "Query and Video are required. Please enter a search term."%string))
     | None => Ok (Some (None,
                Some "Query and Video are required. Please enter a search term."%string))
     end)
    (fun _ => None).

End Methods.

Arguments mkVideo {Frame}.
Arguments can_open {Frame}.
Arguments frame_count {Frame}.
Arguments content_cuts {Frame}.
Arguments frame_at {Frame}.
Arguments decodes {Frame}.
Arguments detect_scenes {Frame}.
Arguments read_frames {Frame}.
Arguments extract_frames {Frame}.
Arguments extract_scene_from_video {Frame}.
Arguments scene_frames {Frame}.
Arguments mkOutcome {Frame}.
Arguments returned {Frame}.
Arguments written {Frame}.

End VideoProcessor.

Import VideoProcessor.

(** ** What the specification speaks of *)

Module Spec.

Definition dot (u v : list Q) : Q :=
  Qsum (map (fun p => fst p * snd p) (combine u v)).

(** [s] is the cosine similarity u.v / (|u| |v|) of the non-zero vectors
    [u] and [v]: it has the sign of u.v and its square is
    (u.v)^2 / (|u|^2 |v|^2).  No square root is needed to say so. *)
Definition is_cosine (u v : list Q) (s : Q) : Prop :=
  0 <= s * dot u v /\ s * s * (dot u u * dot v v) == dot u v * dot u v.

(** [m] is the arithmetic mean of the cosine similarities between the query
    vector and each of the caption vectors. *)
Definition is_mean_cosine (q : Tensor) (es : list Tensor) (m : Q) : Prop :=
  exists ss : list Q,
    Forall2 (fun e s => is_cosine (row q) (row e) s) es ss /\
    m == Qsum ss / inject_Z (Z.of_nat (List.length ss)).

(** Scene [i] has a score above the sentinel, no scene has a higher score
    and every scene before it has a lower one. *)
Definition first_max (scores : list Q) (i : nat) : Prop :=
  exists s : Q,
    nth_error scores i = Some s /\ -1 < s /\
    (forall j s', nth_error scores j = Some s' -> s' <= s) /\
    (forall j s', (j < i)%nat -> nth_error scores j = Some s' -> s' < s).

(** What step 4 of [process_video] has found after the scenes [scored]:
    nothing while no score is above the sentinel, else the first scene of
    maximal score. *)
Definition selected (scored : list (Q * (Z * Z))) (b : best) : Prop :=
  (top_scene b = None /\ highest_similarity b = -1 /\
   forall sc, In sc scored -> fst sc <= -1)
  \/
  (exists i sc,
     nth_error scored i = Some sc /\ first_max (map fst scored) i /\
     top_scene b = Some (snd sc) /\ highest_similarity b = fst sc).

Section Frames.

Variable Frame : Type.
Variable blip_caption : Frame -> option string.
Variable clip_text_features : string -> option Tensor.

(** The usable caption embedding of a frame, if captioning and embedding
    both succeed. *)
Definition frame_embedding (frame : Frame) : option Tensor :=
  match blip_caption frame with
  | Some caption => clip_text_features caption
  | None => None
  end.

Definition usable_embeddings (frames : list Frame) : list Tensor :=
  flat_map (fun frame => match frame_embedding frame with
                         | Some t => [t]
                         | None => []
                         end) frames.

End Frames.

End Spec.

(** ** A small concrete instance: frames are numbered, the captioner and the
    embedder are finite tables. *)

Module Sample.

Local Open Scope string_scope.

(** Captioning raises on frame 0. *)
Definition caption (frame : nat) : option string :=
  match frame with
  | O => None
  | 1%nat => Some "a dog on grass"
  | 2%nat => Some "a cat"
  | 3%nat => Some "noise"
  | _ => Some "a sunset"
  end.

(** Embedding raises on every text that is not in the table. *)
Definition clip (text : string) : option Tensor :=
  if String.eqb text "a dog on grass" then Some (mkTensor 4 [3])
  else if String.eqb text "a cat" then Some (mkTensor (-3) [4])
  else if String.eqb text "a sunset" then Some (mkTensor 3 [4])
  else if String.eqb text "dog" then Some (mkTensor 3 [4])
  else None.

(** Ten decodable frames, numbered 0 to 9. *)
Definition ten_frames (t : Z) : option nat :=
  if (0 <=? t)%Z && (t <? 10)%Z then Some (Z.to_nat t) else None.

(** No content change is detected. *)
Definition still_video : Video nat :=
  {| can_open := true; frame_count := 10; content_cuts := [];
     frame_at := ten_frames |}.

(** One cut, at frame 4. *)
Definition two_scene_video : Video nat :=
  {| can_open := true; frame_count := 10; content_cuts := [4%Z];
     frame_at := ten_frames |}.

(** A writer opens for the file names that end in ".mp4". *)
Definition writer (_ : Video nat) (path : string) : bool :=
  String.eqb (substring (String.length path - 4) 4 path) ".mp4".

(** Ten decodable frames that all show noise, cut at frame 4. *)
Definition noise_video : Video nat :=
  {| can_open := true; frame_count := 10; content_cuts := [4%Z];
     frame_at := fun t => if (0 <=? t)%Z && (t <? 10)%Z
                          then Some 3%nat else None |}.

End Sample.

(** ** Words for further properties of the scorer *)

Module Facts.

(** Both components are positive or both negative, of size at least
    [eps]. *)
Definition same_sign (a b : Q) : Prop :=
  (eps <= a /\ eps <= b) \/ (a <= - eps /\ b <= - eps).

(** One component is positive and the other negative, of size at least
    [eps]. *)
Definition opposite_sign (a b : Q) : Prop :=
  (eps <= a /\ b <= - eps) \/ (a <= - eps /\ eps <= b).

(** The frame gets a caption: BLIP does not raise on it. *)
Definition captioned {Frame : Type} (blip_caption : Frame -> option string)
    (frame : Frame) : bool :=
  match blip_caption frame with Some _ => true | None => false end.

End Facts.

(** ** The text-to-SQL chatbot of the second notebook

    [NLtoSQL] keeps a chat history and streams the answer of a chat model.
    The database, the prompt template and the chat model are black boxes:
    the reflected columns and the table read at construction are given,
    [format] is [prompt_template.format] and [stream] is [model.stream],
    which delivers the contents of its chunks and may then raise. *)

Module NLtoSQL.

Inductive message : Type :=
| SystemMessage (content : string)
| HumanMessage (content : string).

(** A reflected column: its name and its type as [str] shows it. *)
Record column : Type := mkColumn { col_name : string; col_type : string }.

(** [__get_schema__]: one "name: type" line per column. *)
Definition get_schema (columns : list column) : list string :=
  map (fun c => (col_name c ++ ": " ++ col_type c)%string) columns.

Section Chat.

Variable Dataset : Type.
Variable format : list string -> Dataset -> string -> string.
Variable stream : list message -> list string * option exn.
Variable sys_text : string.

(** The attributes of the object that [call] uses. *)
Record chatbot : Type := mkChatbot {
  input : string;
  schema : list string;
  dataset : Dataset;
  chat_messages : list message
}.

(** [__init__], once the engine is set and the table is read. *)
Definition init (input : string) (columns : list column) (data : Dataset)
  : chatbot :=
  {| input := input;
     schema := get_schema columns;
     dataset := data;
     chat_messages := [] ++ [SystemMessage sys_text] |}.

(** The loop of [call]: [response] grows by each chunk and is yielded. *)
Fixpoint responses (response : string) (chunks : list string) : list string :=
  match chunks with
  | [] => []
  | chunk :: chunks' =>
      (response ++ chunk)%string
        :: responses (response ++ chunk)%string chunks'
  end.

(** [call], iterated to its end: the values yielded, the exception that
    ended the stream if one did, and the object afterwards. *)
Definition call (self : chatbot) : list string * option exn * chatbot :=
  let query := format (schema self) (dataset self) (input self) in
  let messages := chat_messages self ++ [HumanMessage query] in
  let '(chunks, raised) := stream messages in
  (responses "" chunks, raised,
   {| input := input self; schema := schema self; dataset := dataset self;
      chat_messages := messages |}).

(** The loop of the last cell: [full_response] after it. *)
Definition full_response (yielded : list string) : string :=
  fold_left (fun _ chunk => chunk) yielded ""%string.

(** [call] run [n] times in a row, every generator iterated to its end. *)
Fixpoint call_times (n : nat) (self : chatbot) : chatbot :=
  match n with
  | O => self
  | S n' => call_times n' (snd (call self))
  end.

End Chat.

End NLtoSQL.

(** ** Arithmetic of the similarities *)

Lemma unit1_range (a : Q) : -1 <= unit1 a <= 1.
Proof.
  unfold unit1.
  assert (Hm : Qabs a <= Qmax (Qabs a) eps) by apply Q.le_max_l.
  assert (He : eps <= Qmax (Qabs a) eps) by apply Q.le_max_r.
  assert (Hpos : 0 < Qmax (Qabs a) eps).
  { eapply Qlt_le_trans; [| exact He]. reflexivity. }
  apply Qabs_Qle_condition in Hm. destruct Hm as [Hlo Hhi].
  split.
  - apply Qle_shift_div_l; [exact Hpos |]. lra.
  - apply Qle_shift_div_r; [exact Hpos |]. lra.
Qed.

Lemma cos1_range (a b : Q) : -1 <= cos1 a b <= 1.
Proof.
  unfold cos1.
  pose proof (unit1_range a) as Ha. pose proof (unit1_range b) as Hb.
  split; nra.
Qed.

Lemma Qsum_app (l1 l2 : list Q) : Qsum (l1 ++ l2) == Qsum l1 + Qsum l2.
Proof.
  induction l1 as [| x l1 IH]; simpl.
  - lra.
  - rewrite IH. lra.
Qed.

Lemma Qsum_range (l : list Q) :
  Forall in_unit l ->
  - inject_Z (Z.of_nat (List.length l)) <= Qsum l
  /\ Qsum l <= inject_Z (Z.of_nat (List.length l)).
Proof.
  induction 1 as [| x l Hx _ IH].
  - simpl. split; apply Qle_refl.
  - cbn [List.length Qsum fold_right].
    rewrite Nat2Z.inj_succ. unfold Z.succ. rewrite inject_Z_plus.
    unfold in_unit in Hx. change (fold_right Qplus 0 l) with (Qsum l).
    change (inject_Z 1) with 1. lra.
Qed.


Lemma mean_range (t : list (list Q)) :
  concat t <> [] -> Forall (Forall in_unit) t -> in_unit (mean t).
Proof.
  intros Hne Hall. unfold mean.
  assert (Hflat : Forall in_unit (concat t)).
  { clear Hne. induction Hall as [| r t Hr _ IH]; simpl.
    - constructor.
    - apply Forall_app. split; [exact Hr | exact IH]. }
  destruct (Qsum_range _ Hflat) as [Hlo Hhi].
  assert (Hpos : 0 < inject_Z (Z.of_nat (List.length (concat t)))).
  { destruct (concat t) as [| x l]; [congruence |].
    cbn [List.length]. rewrite Nat2Z.inj_succ.
    change 0 with (inject_Z 0). rewrite <- Zlt_Qlt. lia. }
  split.
  - apply Qle_shift_div_l; [exact Hpos |]. lra.
  - apply Qle_shift_div_r; [exact Hpos |]. lra.
Qed.


(** ** torch.stack and cosine_similarity *)

Lemma all_tensors_Some (l : list (option Tensor)) (ts : list Tensor) :
  all_tensors l = Some ts <-> l = map Some ts.
Proof.
  revert ts. induction l as [| o l IH]; intros ts; simpl.
  - split.
    + intros H. injection H as <-. reflexivity.
    + destruct ts; [reflexivity | discriminate].
  - destruct o as [t |].
    + destruct (all_tensors l) as [ts0 |] eqn:E.
      * split.
        -- intros H. injection H as <-. simpl. f_equal. apply IH. reflexivity.
        -- destruct ts as [| t' ts']; [discriminate |]. simpl.
           intros H. injection H as -> H. apply IH in H.
           injection H as ->. reflexivity.
      * split; [discriminate |].
        destruct ts as [| t' ts']; [discriminate |]. simpl.
        intros H. injection H as -> H. apply IH in H. discriminate.
    + split; [discriminate | destruct ts; discriminate].
Qed.

Lemma same_size_Forall (d : nat) (ts : list Tensor) :
  same_size d ts = true <-> Forall (fun t => dim t = d) ts.
Proof.
  unfold same_size. rewrite forallb_forall, Forall_forall.
  split; intros H t Ht; apply Nat.eqb_eq; auto.
Qed.

(** [stack] succeeds exactly on a non-empty list of tensors of one size. *)
Lemma stack_Ok (l : list (option Tensor)) (ts : list Tensor) :
  stack l = Ok ts <->
  l = map Some ts /\ ts <> [] /\
  (forall a b, In a ts -> In b ts -> dim a = dim b).
Proof.
  unfold stack. split.
  - destruct (all_tensors l) as [[| t ts0] |] eqn:E; try discriminate.
    destruct (same_size (dim t) ts0) eqn:S; [| discriminate].
    intros H. injection H as <-. apply all_tensors_Some in E.
    apply same_size_Forall in S. rewrite Forall_forall in S.
    split; [exact E |]. split; [discriminate |].
    assert (Hd : forall a, In a (t :: ts0) -> dim a = dim t).
    { intros a [<- | Ha]; [reflexivity | auto]. }
    intros a b Ha Hb. rewrite (Hd a Ha), (Hd b Hb). reflexivity.
  - intros (Hl & Hne & Hd). apply all_tensors_Some in Hl. rewrite Hl.
    destruct ts as [| t ts0]; [congruence |].
    replace (same_size (dim t) ts0) with true; [reflexivity |].
    symmetry. apply same_size_Forall, Forall_forall.
    intros a Ha. apply Hd; simpl; auto.
Qed.


Lemma stack_all_None (l : list (option Tensor)) :
  (forall o, In o l -> o = None) -> exists e, stack l = Raise e.
Proof.
  intros H. unfold stack. destruct l as [| o l].
  - simpl. eexists; reflexivity.
  - rewrite (H o) by (simpl; auto). simpl. eexists; reflexivity.
Qed.

Lemma cos_rows_Ok (x : list Q) (ts : list Tensor) (rows : list (list Q)) :
  cos_rows x ts = Ok rows <-> Forall2 (fun t r => cos_row x t = Ok r) ts rows.
Proof.
  revert rows. induction ts as [| t ts IH]; intros rows; simpl.
  - split.
    + intros H. injection H as <-. constructor.
    + intros H. inversion H. reflexivity.
  - destruct (cos_row x t) as [r |] eqn:Er; simpl.
    + destruct (cos_rows x ts) as [rest |] eqn:Erest; simpl.
      * split.
        -- intros H. injection H as <-. constructor; [exact Er |].
           apply IH. reflexivity.
        -- intros H. inversion H as [| ? r' ? rest' H1 H2]; subst.
           apply IH in H2. congruence.
      * split; [discriminate |].
        intros H. inversion H as [| ? r' ? rest' H1 H2]; subst.
        apply IH in H2. discriminate.
    + split; [discriminate |].
      intros H. inversion H as [| ? r' ? rest' H1 H2]; subst. congruence.
Qed.


Lemma broadcast_last_nonempty (x y : list Q) (ps : list (Q * Q)) :
  x <> [] -> y <> [] -> broadcast_last x y = Ok ps -> ps <> [].
Proof.
  intros Hx Hy. unfold broadcast_last.
  destruct x as [| a x]; [congruence |]. destruct y as [| b y]; [congruence |].
  destruct (Nat.eqb _ _); [intros H; injection H as <-; discriminate |].
  destruct (Nat.eqb _ _); [intros H; injection H as <-; discriminate |].
  destruct (Nat.eqb _ _); [intros H; injection H as <-; discriminate |].
  discriminate.
Qed.

Lemma cos_row_Ok (x : list Q) (t : Tensor) (r : list Q) :
  x <> [] -> cos_row x t = Ok r -> r <> [] /\ Forall in_unit r.
Proof.
  intros Hx. unfold cos_row.
  destruct (broadcast_last x (row t)) as [ps |] eqn:E; simpl; [| discriminate].
  intros H. injection H as <-.
  apply broadcast_last_nonempty in E; [| exact Hx | discriminate].
  split.
  - destruct ps; [congruence | discriminate].
  - apply Forall_forall. intros s Hs. apply in_map_iff in Hs.
    destruct Hs as (p & <- & _). apply cos1_range.
Qed.

Lemma cosine_similarity_Ok (q : option Tensor) (ts : list Tensor)
    (sims : list (list Q)) :
  ts <> [] -> cosine_similarity q ts = Ok sims ->
  concat sims <> [] /\ Forall (Forall in_unit) sims.
Proof.
  intros Hne. destruct q as [q |]; simpl; [| discriminate].
  intros H. apply cos_rows_Ok in H.
  assert (Hx : row q <> []) by discriminate.
  split.
  - destruct H as [| t r ts0 sims0 Hr _]; [congruence |].
    apply (cos_row_Ok _ _ _ Hx) in Hr. destruct Hr as [Hr _].
    simpl. destruct r; [congruence | discriminate].
  - clear Hne. induction H as [| t r ts0 sims0 Hr _ IH]; constructor.
    + apply (cos_row_Ok _ _ _ Hx) in Hr. apply Hr.
    + exact IH.
Qed.

(** ** The Scene Scorer *)

Section Scorer.

Variable Frame : Type.
Variable blip_caption : Frame -> option string.
Variable clip_text_features : string -> option Tensor.

Local Abbreviation get_query_embedding :=
  (get_query_embedding clip_text_features).
Local Abbreviation caption_embeddings :=
  (caption_embeddings Frame blip_caption clip_text_features).
Local Abbreviation compute_I2T_embeddings :=
  (compute_I2T_embeddings Frame blip_caption clip_text_features).
Local Abbreviation process_scene :=
  (process_scene Frame blip_caption clip_text_features).
Local Abbreviation frame_embedding :=
  (Spec.frame_embedding Frame blip_caption clip_text_features).

Lemma get_query_embedding_eq (query : string) :
  get_query_embedding query = clip_text_features query.
Proof.
  unfold VideoProcessor.get_query_embedding.
  destruct (clip_text_features query); reflexivity.
Qed.

(** The list the loop of [compute_I2T_embeddings] builds: one entry for
    every frame that could be captioned, [None] where the caption could not
    be embedded. *)
Lemma caption_embeddings_flat (frames : list Frame)
    (acc : list (option Tensor)) :
  caption_embeddings frames acc =
  acc ++ flat_map (fun frame => match blip_caption frame with
                                | Some query => [clip_text_features query]
                                | None => []
                                end) frames.
Proof.
  revert acc. induction frames as [| frame frames IH]; intros acc; simpl.
  - rewrite app_nil_r. reflexivity.
  - rewrite IH. destruct (blip_caption frame) as [query |]; simpl.
    + rewrite get_query_embedding_eq, <- app_assoc. reflexivity.
    + reflexivity.
Qed.

Lemma caption_embeddings_perm (frames frames' : list Frame) :
  Permutation frames frames' ->
  Permutation (caption_embeddings frames []) (caption_embeddings frames' []).
Proof.
  intros Hp. rewrite !caption_embeddings_flat. simpl.
  apply Permutation_flat_map. exact Hp.
Qed.

Lemma caption_embeddings_failed (frames : list Frame) :
  Forall (fun frame => frame_embedding frame = None) frames ->
  forall o, In o (caption_embeddings frames []) -> o = None.
Proof.
  intros Hall o. rewrite caption_embeddings_flat. simpl.
  rewrite in_flat_map. intros (frame & Hin & Ho).
  rewrite Forall_forall in Hall. specialize (Hall frame Hin).
  unfold Spec.frame_embedding in Hall.
  destruct (blip_caption frame) as [query |]; [| destruct Ho].
  destruct Ho as [<- | []]. exact Hall.
Qed.

Lemma process_scene_cases (frames : list Frame) (q : option Tensor) :
  process_scene frames q = -1 \/
  exists embs sims,
    compute_I2T_embeddings frames = Ok embs /\
    cosine_similarity q embs = Ok sims /\
    process_scene frames q = mean sims /\
    in_unit (mean sims).
Proof.
  unfold VideoProcessor.process_scene.
  destruct (compute_I2T_embeddings frames) as [embs | e] eqn:Ec; simpl;
    [| left; reflexivity].
  destruct (cosine_similarity q embs) as [sims | e] eqn:Es; simpl;
    [| left; reflexivity].
  right. exists embs, sims.
  assert (Hne : embs <> []) by (apply stack_Ok in Ec; apply Ec).
  destruct (cosine_similarity_Ok q embs sims Hne Es) as [H1 H2].
  split; [reflexivity |]. split; [exact Es |].
  split; [reflexivity |]. apply mean_range; assumption.
Qed.

Lemma process_scene_range (frames : list Frame) (q : option Tensor) :
  in_unit (process_scene frames q).
Proof.
  destruct (process_scene_cases frames q) as [-> | (embs & sims & _ & _ & -> & H)].
  - split; [apply Qle_refl | discriminate].
  - exact H.
Qed.

Lemma process_scene_failed (frames : list Frame) (q : option Tensor) :
  Forall (fun frame => frame_embedding frame = None) frames ->
  process_scene frames q = -1.
Proof.
  intros Hall. unfold VideoProcessor.process_scene, VideoProcessor.compute_I2T_embeddings.
  destruct (stack_all_None _ (caption_embeddings_failed frames Hall)) as [e ->].
  reflexivity.
Qed.

Lemma process_scene_no_query (frames : list Frame) :
  process_scene frames None = -1.
Proof.
  unfold VideoProcessor.process_scene.
  destruct (compute_I2T_embeddings frames); reflexivity.
Qed.

End Scorer.

(** ** The Scene Selector *)

Lemma Qgtb_true (a b : Q) : Qgtb a b = true <-> b < a.
Proof.
  unfold Qgtb. rewrite negb_true_iff, <- not_true_iff_false, Qle_bool_iff.
  split; [apply Qnot_le_lt | apply Qlt_not_le].
Qed.

Lemma Qgtb_false (a b : Q) : Qgtb a b = false <-> a <= b.
Proof.
  unfold Qgtb. rewrite negb_false_iff, Qle_bool_iff. reflexivity.
Qed.

Lemma update_best_keep (b : best) (s : Q) (scene : Z * Z) :
  s <= highest_similarity b -> update_best b (s, scene) = b.
Proof.
  intros H. unfold update_best. apply Qgtb_false in H. rewrite H. reflexivity.
Qed.

Lemma update_best_take (b : best) (s : Q) (scene : Z * Z) :
  highest_similarity b < s ->
  update_best b (s, scene) =
  {| top_scene := Some scene; highest_similarity := s |}.
Proof.
  intros H. unfold update_best. apply Qgtb_true in H. rewrite H. reflexivity.
Qed.

Lemma select_scene_snoc (b : best) (scored : list (Q * (Z * Z)))
    (x : Q * (Z * Z)) :
  select_scene b (scored ++ [x]) = update_best (select_scene b scored) x.
Proof. unfold select_scene. rewrite fold_left_app. reflexivity. Qed.

Lemma nth_error_snoc_inv {A : Type} (l : list A) (x : A) (j : nat) (y : A) :
  nth_error (l ++ [x]) j = Some y ->
  ((j < List.length l)%nat /\ nth_error l j = Some y)
  \/ (j = List.length l /\ y = x).
Proof.
  intros H. destruct (Nat.lt_ge_cases j (List.length l)) as [Hlt | Hge].
  - left. split; [exact Hlt |]. rewrite nth_error_app1 in H; assumption.
  - right. rewrite nth_error_app2 in H by exact Hge.
    destruct (j - List.length l)%nat as [| k] eqn:E.
    + simpl in H. injection H as <-. split; [lia | reflexivity].
    + simpl in H. destruct k; discriminate.
Qed.

Lemma first_max_keep (scores : list Q) (i : nat) (s x : Q) :
  nth_error scores i = Some s -> x <= s ->
  Spec.first_max scores i -> Spec.first_max (scores ++ [x]) i.
Proof.
  intros Hi Hx (s0 & Hs0 & Hgt & Hall & Hbefore).
  assert (s0 = s) by congruence. subst s0.
  assert (Hlen : (i < List.length scores)%nat).
  { apply nth_error_Some. congruence. }
  exists s. split; [rewrite nth_error_app1; assumption |].
  split; [exact Hgt |]. split.
  - intros j s' Hj. apply nth_error_snoc_inv in Hj.
    destruct Hj as [[_ Hj] | [_ ->]]; [eapply Hall; eassumption | exact Hx].
  - intros j s' Hlt Hj. apply nth_error_snoc_inv in Hj.
    destruct Hj as [[_ Hj] | [-> _]]; [eapply Hbefore; eassumption | lia].
Qed.

Lemma first_max_take (scores : list Q) (x : Q) :
  -1 < x -> (forall s', In s' scores -> s' < x) ->
  Spec.first_max (scores ++ [x]) (List.length scores).
Proof.
  intros Hgt Hlow. exists x.
  split; [rewrite nth_error_app2, Nat.sub_diag by lia; reflexivity |].
  split; [exact Hgt |]. split.
  - intros j s' Hj. apply nth_error_snoc_inv in Hj.
    destruct Hj as [[_ Hj] | [_ ->]]; [| apply Qle_refl].
    apply Qlt_le_weak, Hlow. eapply nth_error_In; eassumption.
  - intros j s' Hlt Hj. apply nth_error_snoc_inv in Hj.
    destruct Hj as [[_ Hj] | [-> _]]; [| lia].
    apply Hlow. eapply nth_error_In; eassumption.
Qed.

Lemma select_scene_selected (scored : list (Q * (Z * Z))) :
  Spec.selected scored (select_scene best_init scored).
Proof.
  induction scored as [| [x scene] scored IH] using rev_ind.
  - left. repeat split. intros sc [].
  - rewrite select_scene_snoc.
    destruct (Qlt_le_dec (highest_similarity (select_scene best_init scored)) x)
      as [Hlt | Hle].
    + rewrite (update_best_take _ _ _ Hlt). right.
      exists (List.length scored), (x, scene).
      split; [rewrite nth_error_app2, Nat.sub_diag by lia; reflexivity |].
      split; [| split; reflexivity].
      rewrite map_app. simpl. rewrite <- (length_map fst scored).
      destruct IH as [(_ & Hh & Hall) | (i & sc & Hi & Hmax & _ & Hh)].
      * rewrite Hh in Hlt. apply first_max_take; [exact Hlt |].
        intros s' Hs'. apply in_map_iff in Hs'. destruct Hs' as (sc & <- & Hsc).
        eapply Qle_lt_trans; [apply Hall; exact Hsc | exact Hlt].
      * rewrite Hh in Hlt. destruct Hmax as (s & Hs & Hgt & Hall & _).
        assert (Hsc : s = fst sc).
        { rewrite nth_error_map, Hi in Hs. simpl in Hs. congruence. }
        subst s. apply first_max_take; [lra |].
        intros s' Hs'. apply In_nth_error in Hs'. destruct Hs' as [j Hj].
        eapply Qle_lt_trans; [eapply Hall; exact Hj | exact Hlt].
    + rewrite (update_best_keep _ _ _ Hle).
      destruct IH as [(Ht & Hh & Hall) | (i & sc & Hi & Hmax & Ht & Hh)].
      * left. split; [exact Ht |]. split; [exact Hh |].
        intros sc Hsc. apply in_app_or in Hsc. destruct Hsc as [Hsc | [<- | []]].
        -- apply Hall. exact Hsc.
        -- simpl. rewrite Hh in Hle. exact Hle.
      * right. exists i, sc.
        assert (Hlen : (i < List.length scored)%nat).
        { apply nth_error_Some. congruence. }
        split; [rewrite nth_error_app1; assumption |].
        split; [| split; assumption].
        rewrite map_app. simpl. rewrite Hh in Hle.
        apply (first_max_keep _ _ (fst sc)); [| exact Hle | exact Hmax].
        rewrite nth_error_map, Hi. reflexivity.
Qed.

(** ** The run *)

Section Run.

Variable Frame : Type.
Variable blip_caption : Frame -> option string.
Variable clip_text_features : string -> option Tensor.
Variable models_load : bool.
Variable writer_opens : Video Frame -> string -> bool.

Local Abbreviation get_query_embedding :=
  (get_query_embedding clip_text_features).
Local Abbreviation process_scene :=
  (process_scene Frame blip_caption clip_text_features).
Local Abbreviation scored_scenes :=
  (scored_scenes Frame blip_caption clip_text_features).
Local Abbreviation score_and_select :=
  (score_and_select Frame blip_caption clip_text_features).
Local Abbreviation process_video :=
  (process_video Frame blip_caption clip_text_features writer_opens).
Local Abbreviation extract_scene_from_video :=
  (extract_scene_from_video writer_opens).
Local Abbreviation process_video_with_gradio :=
  (process_video_with_gradio Frame blip_caption clip_text_features
     models_load writer_opens).
Local Abbreviation frame_embedding :=
  (Spec.frame_embedding Frame blip_caption clip_text_features).

(** The loop of step 4 is the selection over the scored scenes. *)
Lemma score_and_select_scored (q : option Tensor)
    (frames : list (list Frame * Z * Z)) (b : best) :
  score_and_select q frames b = select_scene b (scored_scenes q frames).
Proof.
  unfold VideoProcessor.score_and_select, select_scene, VideoProcessor.scored_scenes.
  revert b. induction frames as [| [[fs s] e] frames IH]; intros b; simpl.
  - reflexivity.
  - apply IH.
Qed.

Lemma first_max_score (scored : list (Q * (Z * Z))) (i : nat)
    (sc : Q * (Z * Z)) :
  nth_error scored i = Some sc -> Spec.first_max (map fst scored) i ->
  -1 < fst sc /\ forall sc', In sc' scored -> fst sc' <= fst sc.
Proof.
  intros Hi (s & Hs & Hgt & Hall & _).
  rewrite nth_error_map, Hi in Hs. simpl in Hs. injection Hs as <-.
  split; [exact Hgt |].
  intros sc' Hin. apply In_nth_error in Hin. destruct Hin as [j Hj].
  apply (Hall j). rewrite nth_error_map, Hj. reflexivity.
Qed.

Lemma selected_floor (scored : list (Q * (Z * Z))) (b : best) :
  Spec.selected scored b -> -1 <= highest_similarity b.
Proof.
  intros [(_ & -> & _) | (i & sc & Hi & Hmax & _ & ->)].
  - apply Qle_refl.
  - apply Qlt_le_weak. apply (first_max_score _ _ _ Hi Hmax).
Qed.

Lemma select_scene_none (scored : list (Q * (Z * Z))) :
  (forall sc, In sc scored -> fst sc <= -1) ->
  select_scene best_init scored = best_init.
Proof.
  intros Hall. induction scored as [| [x scene] scored IH] using rev_ind.
  - reflexivity.
  - rewrite select_scene_snoc, IH.
    + apply update_best_keep. apply (Hall (x, scene)).
      apply in_or_app. right. simpl. auto.
    + intros sc Hsc. apply Hall. apply in_or_app. left. exact Hsc.
Qed.

(** A scene scored -1 leaves the variables of the loop as they were, and
    the scenes after it are processed as if it had not been there. *)
Lemma score_and_select_skip (q : option Tensor)
    (before after : list (list Frame * Z * Z))
    (frames_in_scene : list Frame) (scene_start scene_end : Z) :
  process_scene frames_in_scene q = -1 ->
  score_and_select q
    (before ++ (frames_in_scene, scene_start, scene_end) :: after) best_init
  = score_and_select q (before ++ after) best_init.
Proof.
  intros Hs. rewrite !score_and_select_scored.
  unfold VideoProcessor.scored_scenes. rewrite !map_app. cbn [map].
  unfold select_scene. rewrite !fold_left_app. cbn [fold_left].
  rewrite Hs. f_equal. apply update_best_keep.
  apply (selected_floor (scored_scenes q before)), select_scene_selected.
Qed.

Lemma process_video_select (video : Video Frame) (query path : string)
    (scene_list : list (Z * Z)) :
  detect_scenes video = Ok scene_list ->
  process_video video query path =
  match top_scene (select_scene best_init
                     (scored_scenes (get_query_embedding query)
                        (scene_frames video scene_list))) with
  | Some (scene_start, scene_end) =>
      Ok {| returned := Some path;
            written := extract_scene_from_video video scene_start scene_end
                         path |}
  | None => Ok {| returned := None; written := [] |}
  end.
Proof.
  intros Hd. unfold VideoProcessor.process_video. rewrite Hd. simpl.
  rewrite score_and_select_scored. reflexivity.
Qed.

Lemma process_video_none (video : Video Frame) (query path : string)
    (scene_list : list (Z * Z)) :
  detect_scenes video = Ok scene_list ->
  (forall sc,
     In sc (scored_scenes (get_query_embedding query)
              (scene_frames video scene_list)) -> fst sc <= -1) ->
  process_video video query path = Ok {| returned := None; written := [] |}.
Proof.
  intros Hd Hall. rewrite (process_video_select _ _ _ _ Hd).
  rewrite (select_scene_none _ Hall). reflexivity.
Qed.

Lemma gradio_none (video : Video Frame) (query stamp : string) :
  truthy query = true ->
  models_load = true ->
  process_video video query ("output_" ++ stamp) =
    Ok {| returned := None; written := [] |} ->
  process_video_with_gradio (Some video) query stamp =
    Some (None, Some "No relevant scene found."%string).
Proof.
  intros Hq Hl Hp. unfold VideoProcessor.process_video_with_gradio.
  rewrite Hq, Hl. cbn [bind]. rewrite Hp. reflexivity.
Qed.

Lemma scored_scenes_no_query (frames : list (list Frame * Z * Z)) :
  forall sc, In sc (scored_scenes None frames) -> fst sc = -1.
Proof.
  intros sc Hin. unfold VideoProcessor.scored_scenes in Hin.
  apply in_map_iff in Hin. destruct Hin as ([[fs s] e] & <- & _).
  simpl. apply process_scene_no_query.
Qed.

Lemma scenes_from_starts (last_cut : Z) (cut_list : list Z) (end_pos : Z) :
  map fst (SceneDetect.scenes_from last_cut cut_list end_pos)
  = last_cut :: cut_list.
Proof.
  revert last_cut. induction cut_list as [| cut cuts IH]; intros last_cut.
  - reflexivity.
  - simpl. rewrite IH. reflexivity.
Qed.

(** The intervals of a detected scene list are distinct when the cuts are
    ascending frame numbers after frame 0. *)
Lemma detected_scenes_distinct (video : Video Frame)
    (scene_list : list (Z * Z)) :
  StronglySorted Z.lt (0%Z :: content_cuts video) ->
  detect_scenes video = Ok scene_list ->
  NoDup (map (fun fr : list Frame * Z * Z => (snd (fst fr), snd fr))
           (scene_frames video scene_list)).
Proof.
  intros Hsorted Hd.
  assert (Hiv : map (fun fr : list Frame * Z * Z => (snd (fst fr), snd fr))
                  (scene_frames video scene_list) = scene_list).
  { unfold scene_frames. rewrite map_map. rewrite <- (map_id scene_list) at 2.
    apply map_ext. intros [s e]. reflexivity. }
  rewrite Hiv. unfold detect_scenes in Hd.
  destruct (can_open video); [| discriminate]. injection Hd as <-.
  unfold SceneDetect.get_scene_list.
  destruct (SceneDetect.is_empty (content_cuts video) && negb false);
    [constructor |].
  apply (NoDup_map_inv fst). unfold SceneDetect.get_scenes_from_cuts.
  rewrite scenes_from_starts.
  apply StronglySorted_Sorted, Sorted_StronglySorted in Hsorted;
    [| intros x y z; apply Z.lt_trans].
  clear Hiv. induction Hsorted as [| x l _ IH Hx]; constructor.
  - intros Hin. rewrite Forall_forall in Hx. specialize (Hx x Hin). lia.
  - exact IH.
Qed.

Lemma scored_scenes_nth (q : option Tensor)
    (frames : list (list Frame * Z * Z)) (j : nat)
    (fs : list Frame) (s e : Z) :
  nth_error frames j = Some (fs, s, e) ->
  nth_error (scored_scenes q frames) j = Some (process_scene fs q, (s, e)).
Proof.
  intros Hj. unfold VideoProcessor.scored_scenes.
  rewrite nth_error_map, Hj. reflexivity.
Qed.

(** A scene whose score is not above the running maximum leaves the
    variables of the loop as they were. *)
Lemma score_and_select_keep (q : option Tensor)
    (before after : list (list Frame * Z * Z))
    (fs : list Frame) (s e : Z) :
  process_scene fs q
    <= highest_similarity (score_and_select q before best_init) ->
  score_and_select q (before ++ (fs, s, e) :: after) best_init
  = score_and_select q (before ++ after) best_init.
Proof.
  intros Hle. rewrite score_and_select_scored in Hle.
  rewrite !score_and_select_scored.
  unfold VideoProcessor.scored_scenes in *. rewrite !map_app. cbn [map].
  unfold select_scene in *. rewrite !fold_left_app. cbn [fold_left].
  f_equal. apply update_best_keep. exact Hle.
Qed.

End Run.

(** ** The Frame Sampler *)

Section Sampler.

Variable Frame : Type.

Lemma range_In (a b t : Z) : In t (range a b) <-> (a <= t < b)%Z.
Proof.
  unfold range. rewrite in_map_iff. split.
  - intros (i & <- & Hi). apply in_seq in Hi. lia.
  - intros H. exists (Z.to_nat (t - a)). split; [lia |].
    apply in_seq. lia.
Qed.

Lemma range_sorted (a b : Z) : StronglySorted Z.lt (range a b).
Proof.
  unfold range. generalize (Z.to_nat (b - a)) as n. generalize 0%nat as k.
  intros k n. revert k. induction n as [| n IH]; intros k; simpl.
  - constructor.
  - constructor; [apply IH |].
    apply Forall_forall. intros t Ht. apply in_map_iff in Ht.
    destruct Ht as (i & <- & Hi). apply in_seq in Hi. lia.
Qed.

Lemma range_length (a b : Z) : List.length (range a b) = Z.to_nat (b - a).
Proof. unfold range. rewrite length_map, length_seq. reflexivity. Qed.

Lemma filter_sorted (f : Z -> bool) (l : list Z) :
  StronglySorted Z.lt l -> StronglySorted Z.lt (filter f l).
Proof.
  induction 1 as [| t l Hl IH Ht]; simpl.
  - constructor.
  - destruct (f t); [| exact IH].
    constructor; [exact IH |].
    rewrite Forall_forall in *. intros u Hu. apply filter_In in Hu.
    apply Ht, Hu.
Qed.

(** [read_frames] appends, in the order of [ts], the frames that decode. *)
Lemma read_frames_filter (video : Video Frame) (ts : list Z)
    (frames : list Frame) :
  map Some (read_frames video ts frames) =
  map Some frames ++ map (frame_at video) (filter (decodes video) ts).
Proof.
  revert frames. induction ts as [| t ts IH]; intros frames; simpl.
  - rewrite app_nil_r. reflexivity.
  - rewrite IH. unfold decodes at 2.
    destruct (frame_at video t) as [frame |] eqn:E; simpl.
    + rewrite map_app, <- app_assoc, E. reflexivity.
    + reflexivity.
Qed.

End Sampler.

(** ** The claims *)

Section Claims.

Variable Frame : Type.
Variable blip_caption : Frame -> option string.
Variable clip_text_features : string -> option Tensor.
Variable models_load : bool.
Variable writer_opens : Video Frame -> string -> bool.

Local Abbreviation get_query_embedding :=
  (get_query_embedding clip_text_features).
Local Abbreviation caption_embeddings :=
  (caption_embeddings Frame blip_caption clip_text_features).
Local Abbreviation compute_I2T_embeddings :=
  (compute_I2T_embeddings Frame blip_caption clip_text_features).
Local Abbreviation process_scene :=
  (process_scene Frame blip_caption clip_text_features).
Local Abbreviation scored_scenes :=
  (scored_scenes Frame blip_caption clip_text_features).
Local Abbreviation score_and_select :=
  (score_and_select Frame blip_caption clip_text_features).
Local Abbreviation process_video :=
  (process_video Frame blip_caption clip_text_features writer_opens).
Local Abbreviation extract_scene_from_video :=
  (extract_scene_from_video writer_opens).
Local Abbreviation process_video_with_gradio :=
  (process_video_with_gradio Frame blip_caption clip_text_features
     models_load writer_opens).
Local Abbreviation frame_embedding :=
  (Spec.frame_embedding Frame blip_caption clip_text_features).



(** C3. A scene in which captioning or embedding fails for every frame is
    scored exactly -1, and the run goes on: the loop over the scenes ends
    in the state it would have reached without that scene. *)
Theorem failed_scene_scores_sentinel
    (frames_in_scene : list Frame) (query_embedding : option Tensor) :
  Forall (fun frame => frame_embedding frame = None) frames_in_scene ->
  process_scene frames_in_scene query_embedding = -1 /\
  forall before after scene_start scene_end,
    score_and_select query_embedding
      (before ++ (frames_in_scene, scene_start, scene_end) :: after) best_init
    = score_and_select query_embedding (before ++ after) best_init.
Proof.
  intros Hall.
  assert (Hs : process_scene frames_in_scene query_embedding = -1)
    by (apply process_scene_failed; exact Hall).
  split; [exact Hs |].
  intros before after scene_start scene_end.
  apply score_and_select_skip. exact Hs.
Qed.

(** C4. The loop over the scenes keeps a running maximum seeded at -1 and
    replaces it only by a strictly greater score.  So after any list of
    scenes either no score is above -1 and nothing is selected, or the
    selected interval is that of the FIRST scene of maximal score: every
    scene has a score at most its score and every earlier scene a strictly
    lower one.  A scene whose score equals the running maximum never
    replaces the current best: the loop ends as if it had not been there. *)
Theorem score_and_select_first_maximum
    (query_embedding : option Tensor) (frames : list (list Frame * Z * Z)) :
  (((forall fs s e, In (fs, s, e) frames ->
                    process_scene fs query_embedding <= -1) /\
    top_scene (score_and_select query_embedding frames best_init) = None)
   \/
   (exists i fs s e,
      nth_error frames i = Some (fs, s, e) /\
      -1 < process_scene fs query_embedding /\
      (forall j fs' s' e',
         nth_error frames j = Some (fs', s', e') ->
         process_scene fs' query_embedding
           <= process_scene fs query_embedding) /\
      (forall j fs' s' e',
         (j < i)%nat -> nth_error frames j = Some (fs', s', e') ->
         process_scene fs' query_embedding
           < process_scene fs query_embedding) /\
      top_scene (score_and_select query_embedding frames best_init)
        = Some (s, e) /\
      highest_similarity (score_and_select query_embedding frames best_init)
        = process_scene fs query_embedding))
  /\
  (forall before after fs s e,
     frames = before ++ (fs, s, e) :: after ->
     process_scene fs query_embedding
       == highest_similarity
            (score_and_select query_embedding before best_init) ->
     score_and_select query_embedding frames best_init
     = score_and_select query_embedding (before ++ after) best_init).
Proof.
  split.
  - rewrite score_and_select_scored.
    destruct (select_scene_selected (scored_scenes query_embedding frames))
      as [(Ht & _ & Hall) | (i & sc & Hi & Hmax & Ht & Hh)].
    + left. split; [| exact Ht].
      intros fs s e Hin.
      apply (Hall (process_scene fs query_embedding, (s, e))).
      unfold VideoProcessor.scored_scenes. apply in_map_iff.
      exists (fs, s, e). split; [reflexivity | exact Hin].
    + right.
      assert (Hi' := Hi). unfold VideoProcessor.scored_scenes in Hi'.
      rewrite nth_error_map in Hi'.
      destruct (nth_error frames i) as [[[fs s] e] |] eqn:Hn;
        [| discriminate]. simpl in Hi'. injection Hi' as <-.
      destruct Hmax as (x & Hx & Hgt & Hall & Hbefore).
      rewrite nth_error_map, Hi in Hx. simpl in Hx. injection Hx as <-.
      exists i, fs, s, e.
      split; [exact Hn |]. split; [exact Hgt |]. split; [| split].
      * intros j fs' s' e' Hj. apply (Hall j).
        rewrite nth_error_map, (scored_scenes_nth Frame blip_caption clip_text_features
                                   _ _ _ _ _ _ Hj).
        reflexivity.
      * intros j fs' s' e' Hlt Hj. apply (Hbefore j); [exact Hlt |].
        rewrite nth_error_map, (scored_scenes_nth Frame blip_caption clip_text_features
                                   _ _ _ _ _ _ Hj).
        reflexivity.
      * split; [exact Ht | exact Hh].
  - intros before after fs s e -> Heq.
    apply score_and_select_keep. rewrite Heq. apply Qle_refl.
Qed.

(** C5. In a run whose scenes have distinct intervals, as soon as one scene
    has a score other than the sentinel, a scene is selected and it is not
    one of those scored -1. *)
Theorem sentinel_scene_never_selected
    (query_embedding : option Tensor) (frames : list (list Frame * Z * Z)) :
  NoDup (map (fun fr : list Frame * Z * Z => (snd (fst fr), snd fr)) frames) ->
  (exists fr, In fr frames /\
              ~ process_scene (fst (fst fr)) query_embedding == -1) ->
  exists scene,
    top_scene (score_and_select query_embedding frames best_init) = Some scene
    /\ forall frames_in_scene scene_start scene_end,
         In (frames_in_scene, scene_start, scene_end) frames ->
         process_scene frames_in_scene query_embedding == -1 ->
         (scene_start, scene_end) <> scene.
Proof.
  intros Hnd ([[fs0 s0] e0] & Hin0 & Hns). simpl in Hns.
  rewrite score_and_select_scored.
  assert (Hsnd : map snd (scored_scenes query_embedding frames)
                 = map (fun fr : list Frame * Z * Z => (snd (fst fr), snd fr))
                     frames).
  { unfold VideoProcessor.scored_scenes. rewrite map_map. apply map_ext.
    intros [[fs s] e]. reflexivity. }
  destruct (select_scene_selected (scored_scenes query_embedding frames))
    as [(_ & _ & Hall) | (i & sc & Hi & Hmax & Ht & _)].
  - exfalso. apply Hns.
    assert (Hle : process_scene fs0 query_embedding <= -1).
    { apply (Hall (process_scene fs0 query_embedding, (s0, e0))).
      unfold VideoProcessor.scored_scenes. apply in_map_iff.
      exists (fs0, s0, e0). split; [reflexivity | exact Hin0]. }
    pose proof (process_scene_range Frame blip_caption clip_text_features
                  fs0 query_embedding) as [Hlo _].
    apply Qle_antisym; assumption.
  - exists (snd sc). split; [exact Ht |].
    intros fs s e Hin Hs Heq.
    destruct (first_max_score _ _ _ Hi Hmax) as [Hgt _].
    assert (Hin' : In (process_scene fs query_embedding, (s, e))
                     (scored_scenes query_embedding frames)).
    { unfold VideoProcessor.scored_scenes. apply in_map_iff.
      exists (fs, s, e). split; [reflexivity | exact Hin]. }
    apply In_nth_error in Hin'. destruct Hin' as [j Hj].
    assert (Hij : i = j).
    { rewrite <- Hsnd in Hnd.
      apply (proj1 (NoDup_nth_error _) Hnd).
      - rewrite length_map. apply nth_error_Some. congruence.
      - rewrite !nth_error_map, Hi, Hj. simpl. congruence. }
    subst j. rewrite Hi in Hj. injection Hj as ->. simpl in Hgt.
    rewrite Hs in Hgt. discriminate Hgt.
Qed.

(** C6. When no scene has a score above -1, [process_video] returns None
    and writes no file, and the caller of the interface, whose models
    loaded, gets the message "No relevant scene found." in place of a
    path. *)
Theorem no_match_no_output
    (video : Video Frame) (query path : string) (scene_list : list (Z * Z)) :
  detect_scenes video = Ok scene_list ->
  (forall scene_start scene_end,
     In (scene_start, scene_end) scene_list ->
     process_scene (extract_frames video scene_start scene_end)
       (get_query_embedding query) <= -1) ->
  process_video video query path = Ok {| returned := None; written := [] |} /\
  (truthy query = true -> models_load = true ->
   forall stamp,
     process_video_with_gradio (Some video) query stamp =
     Some (None, Some "No relevant scene found."%string)).
Proof.
  intros Hd Hall.
  assert (Hs : forall sc,
             In sc (scored_scenes (get_query_embedding query)
                      (scene_frames video scene_list)) -> fst sc <= -1).
  { intros sc Hin. unfold VideoProcessor.scored_scenes, scene_frames in Hin.
    rewrite map_map in Hin. apply in_map_iff in Hin.
    destruct Hin as ([s e] & <- & Hin). simpl. apply Hall. exact Hin. }
  split.
  - apply (process_video_none _ _ _ _ _ _ _ _ Hd Hs).
  - intros Hq Hl stamp. apply gradio_none; [exact Hq | exact Hl |].
    apply (process_video_none _ _ _ _ _ _ _ _ Hd Hs).
Qed.

(** C2, as the code has it.  When embedding the query raises,
    [get_query_embedding] catches the exception and returns None, and
    [process_video] goes on with it: every scene is scored -1, nothing is
    selected, no file is written and None is returned, which the interface,
    its models loaded, reports as "No relevant scene found.", as for a run
    without a match. *)
Theorem query_failure_gives_no_match
    (video : Video Frame) (query path : string) (scene_list : list (Z * Z)) :
  clip_text_features query = None ->
  detect_scenes video = Ok scene_list ->
  get_query_embedding query = None /\
  (forall scene_start scene_end,
     In (scene_start, scene_end) scene_list ->
     process_scene (extract_frames video scene_start scene_end)
       (get_query_embedding query) = -1) /\
  process_video video query path = Ok {| returned := None; written := [] |} /\
  (truthy query = true -> models_load = true ->
   forall stamp,
     process_video_with_gradio (Some video) query stamp =
     Some (None, Some "No relevant scene found."%string)).
Proof.
  intros Hq Hd.
  assert (Hn : get_query_embedding query = None)
    by (rewrite get_query_embedding_eq; exact Hq).
  assert (Hs : forall sc,
             In sc (scored_scenes (get_query_embedding query)
                      (scene_frames video scene_list)) -> fst sc <= -1).
  { rewrite Hn. intros sc Hin.
    rewrite (scored_scenes_no_query _ _ _ _ sc Hin). apply Qle_refl. }
  split; [exact Hn |]. split; [| split].
  - intros s e _. rewrite Hn. apply process_scene_no_query.
  - apply (process_video_none _ _ _ _ _ _ _ _ Hd Hs).
  - intros Ht Hl stamp. apply gradio_none; [exact Ht | exact Hl |].
    apply (process_video_none _ _ _ _ _ _ _ _ Hd Hs).
Qed.

(** C7, as the code has it.  For a video that opens and in which the
    detector finds no cut, [detect_scenes] returns the empty scene list
    ([get_scene_list] is called without [start_in_scene]), and the run ends
    with None and no file written. *)
Theorem no_cut_no_scene (video : Video Frame) :
  can_open video = true ->
  content_cuts video = [] ->
  detect_scenes video = Ok [] /\
  forall query path,
    process_video video query path = Ok {| returned := None; written := [] |}.
Proof.
  intros Ho Hc.
  assert (Hd : detect_scenes video = Ok []).
  { unfold detect_scenes. rewrite Ho, Hc. reflexivity. }
  split; [exact Hd |].
  intros query path. apply (process_video_none _ _ _ _ _ _ _ _ Hd).
  intros sc [].
Qed.

(** C8. [extract_frames] returns, for the frame numbers of [start, end] that
    decode and for no other, the frame read at each, in ascending order of
    frame number; frames that do not decode are left out, so the result
    has at most end - start + 1 frames, and the function always returns. *)
Theorem extract_frames_in_range_ascending
    (video : Video Frame) (scene_start scene_end : Z) :
  exists indices : list Z,
    map (frame_at video) indices
      = map Some (extract_frames video scene_start scene_end) /\
    Forall (fun t => (scene_start <= t <= scene_end)%Z) indices /\
    StronglySorted Z.lt indices /\
    (forall t, (scene_start <= t <= scene_end)%Z ->
               decodes video t = true -> In t indices) /\
    (List.length (extract_frames video scene_start scene_end)
       <= Z.to_nat (scene_end - scene_start + 1))%nat.
Proof.
  exists (filter (decodes video) (range scene_start (scene_end + 1))).
  pose proof (read_frames_filter Frame video
                (range scene_start (scene_end + 1)) []) as Hr.
  simpl in Hr. fold (extract_frames video scene_start scene_end) in Hr.
  split; [symmetry; exact Hr |]. split; [| split; [| split]].
  - apply Forall_forall. intros t Ht. apply filter_In in Ht.
    destruct Ht as [Ht _]. apply range_In in Ht. lia.
  - apply filter_sorted, range_sorted.
  - intros t Ht Hdec. apply filter_In. split; [| exact Hdec].
    apply range_In. lia.
  - rewrite <- (length_map Some), Hr, length_map.
    etransitivity; [apply filter_length_le |].
    rewrite range_length. lia.
Qed.

End Claims.

(** ** The claims on the sample instance *)

Section OnSample.

Local Open Scope string_scope.

Local Abbreviation process_scene :=
  (process_scene nat Sample.caption Sample.clip).
Local Abbreviation process_video :=
  (process_video nat Sample.caption Sample.clip Sample.writer).

(** C1, on one frame.  The query embeds to (3, 4) and the caption of the
    only frame to (4, 3): their cosine similarity is 24/25, and that is the
    mean over the scene.  [process_scene] returns 1: the stacked caption
    embeddings have shape (n, 1, D), so [cosine_similarity] with its
    default [dim=1] works along the axis of size 1 and yields the products
    of the signs of the components, here 1 and 1. *)
Theorem process_scene_is_not_mean_cosine :
  Sample.clip "dog" = Some (mkTensor 3 [4]) /\
  Spec.usable_embeddings nat Sample.caption Sample.clip [1%nat]
    = [mkTensor 4 [3]] /\
  process_scene [1%nat] (Some (mkTensor 3 [4])) == 1 /\
  (forall m, Spec.is_mean_cosine (mkTensor 3 [4]) [mkTensor 4 [3]] m ->
             m == 24 # 25) /\
  ~ Spec.is_mean_cosine (mkTensor 3 [4]) [mkTensor 4 [3]]
      (process_scene [1%nat] (Some (mkTensor 3 [4]))).
Proof.
  assert (Hmean : forall m,
             Spec.is_mean_cosine (mkTensor 3 [4]) [mkTensor 4 [3]] m ->
             m == 24 # 25).
  { intros m (ss & HF & Hm).
    inversion HF as [| e s es ss' [Hsign Hsq] HF']; subst.
    inversion HF'; subst. clear HF HF'.
    unfold Spec.dot, row in Hsign, Hsq. simpl in Hsign, Hsq, Hm.
    assert (Hs : s == 24 # 25).
    { apply Qle_antisym.
      - apply Qnot_lt_le. intros Hlt. nra.
      - apply Qnot_lt_le. intros Hlt. nra. }
    rewrite Hm, Hs. reflexivity. }
  split; [reflexivity |]. split; [reflexivity |].
  split; [reflexivity |]. split; [exact Hmean |].
  intros H. apply Hmean in H. vm_compute in H. discriminate H.
Qed.

(** A second defect behind C1: a caption whose embedding fails is not left
    out.  [get_query_embedding] returns None for it, the None is appended,
    [torch.stack] raises on it and the whole scene gets -1, though frame 1
    has a usable embedding. *)
Lemma process_scene_lost_to_failed_embedding :
  Spec.usable_embeddings nat Sample.caption Sample.clip [1%nat; 3%nat]
    = [mkTensor 4 [3]] /\
  caption_embeddings nat Sample.caption Sample.clip [1%nat; 3%nat] []
    = [Some (mkTensor 4 [3]); None] /\
  process_scene [1%nat; 3%nat] (Some (mkTensor 3 [4])) = -1.
Proof. repeat split. Qed.



(** C2 as stated fails: embedding the query "storm" raises, and
    [process_video] raises nothing; it returns None like a run without a
    match. *)
Lemma query_failure_is_not_fatal :
  Sample.clip "storm" = None /\
  process_video Sample.two_scene_video "storm" "out.mp4"
    = Ok {| returned := None; written := [] |} /\
  ~ exists e, process_video Sample.two_scene_video "storm" "out.mp4" = Raise e.
Proof.
  split; [reflexivity |]. split; [reflexivity |].
  intros [e He]. discriminate He.
Qed.

(** On the video with two scenes, for the query "storm". *)
Lemma query_failure_gives_no_match_witness :
  Sample.clip "storm" = None /\
  detect_scenes Sample.two_scene_video = Ok [(0, 4); (4, 10)]%Z /\
  process_video Sample.two_scene_video "storm" "out.mp4"
    = Ok {| returned := None; written := [] |}.
Proof.
  split; [reflexivity |]. split; [reflexivity |].
  apply (query_failure_gives_no_match nat Sample.caption Sample.clip
           true Sample.writer Sample.two_scene_video "storm" "out.mp4" [(0, 4); (4, 10)]%Z
           eq_refl eq_refl).
Defined.

(** Captioning raises on frame 0 and the caption of frame 3 cannot be
    embedded. *)
Lemma failed_scene_scores_sentinel_witness :
  Forall (fun frame =>
            Spec.frame_embedding nat Sample.caption Sample.clip frame = None)
    [0%nat; 3%nat] /\
  process_scene [0%nat; 3%nat] (Some (mkTensor 3 [4])) = -1.
Proof.
  assert (H : Forall (fun frame =>
                Spec.frame_embedding nat Sample.caption Sample.clip frame
                = None) [0%nat; 3%nat]).
  { constructor; [reflexivity |]. constructor; [reflexivity |]. constructor. }
  split; [exact H |].
  apply (failed_scene_scores_sentinel nat Sample.caption Sample.clip
           [0%nat; 3%nat] (Some (mkTensor 3 [4])) H).
Defined.

(** Three scenes scored 0, 1 and 1 for the query (3, 4): the second is
    selected, and the third, which ties with it, changes nothing. *)
Lemma score_and_select_first_maximum_witness :
  process_scene [4%nat] (Some (mkTensor 3 [4]))
    == highest_similarity
         (score_and_select nat Sample.caption Sample.clip
            (Some (mkTensor 3 [4]))
            [([2%nat], 0%Z, 4%Z); ([1%nat], 4%Z, 7%Z)] best_init) /\
  score_and_select nat Sample.caption Sample.clip (Some (mkTensor 3 [4]))
    [([2%nat], 0%Z, 4%Z); ([1%nat], 4%Z, 7%Z); ([4%nat], 7%Z, 10%Z)]
    best_init
  = score_and_select nat Sample.caption Sample.clip (Some (mkTensor 3 [4]))
      [([2%nat], 0%Z, 4%Z); ([1%nat], 4%Z, 7%Z)] best_init /\
  top_scene
    (score_and_select nat Sample.caption Sample.clip (Some (mkTensor 3 [4]))
       [([2%nat], 0%Z, 4%Z); ([1%nat], 4%Z, 7%Z); ([4%nat], 7%Z, 10%Z)]
       best_init)
  = Some (4, 7)%Z.
Proof.
  pose proof (score_and_select_first_maximum nat Sample.caption Sample.clip
                (Some (mkTensor 3 [4]))
                [([2%nat], 0%Z, 4%Z); ([1%nat], 4%Z, 7%Z);
                 ([4%nat], 7%Z, 10%Z)]) as [Hfirst Htie].
  assert (Heq : process_scene [4%nat] (Some (mkTensor 3 [4]))
                == highest_similarity
                     (score_and_select nat Sample.caption Sample.clip
                        (Some (mkTensor 3 [4]))
                        [([2%nat], 0%Z, 4%Z); ([1%nat], 4%Z, 7%Z)]
                        best_init)) by reflexivity.
  split; [exact Heq |]. split.
  - apply (Htie [([2%nat], 0%Z, 4%Z); ([1%nat], 4%Z, 7%Z)] []
             [4%nat] 7%Z 10%Z eq_refl Heq).
  - destruct Hfirst
      as [[Hall _] | (i & fs & s & e & Hi & _ & Hmax & Hbefore & Ht & _)].
    + exfalso.
      specialize (Hall [1%nat] 4%Z 7%Z (or_intror (or_introl eq_refl))).
      vm_compute in Hall. apply Hall. reflexivity.
    + destruct i as [| [| [| i]]].
      * exfalso. simpl in Hi. injection Hi as <- <- <-.
        specialize (Hmax 1%nat [1%nat] 4%Z 7%Z eq_refl).
        vm_compute in Hmax. apply Hmax. reflexivity.
      * simpl in Hi. injection Hi as <- <- <-. exact Ht.
      * exfalso. simpl in Hi. injection Hi as <- <- <-.
        specialize (Hbefore 1%nat [1%nat] 4%Z 7%Z (Nat.lt_succ_diag_r 1)
                      eq_refl).
        vm_compute in Hbefore. discriminate Hbefore.
      * exfalso. simpl in Hi. destruct i; discriminate Hi.
Defined.

(** The first scene of the video with two scenes is scored -1, the second
    is not: the first is not the one selected. *)
Lemma sentinel_scene_never_selected_witness :
  exists scene,
    top_scene (score_and_select nat Sample.caption Sample.clip
                 (Some (mkTensor 3 [4]))
                 (scene_frames Sample.two_scene_video [(0, 4); (4, 10)]%Z)
                 best_init) = Some scene /\
    process_scene (extract_frames Sample.two_scene_video 0 4)
      (Some (mkTensor 3 [4])) == -1 /\
    (0, 4)%Z <> scene.
Proof.
  destruct (sentinel_scene_never_selected nat Sample.caption Sample.clip
              (Some (mkTensor 3 [4]))
              (scene_frames Sample.two_scene_video [(0, 4); (4, 10)]%Z))
    as (scene & Ht & Hno).
  - simpl. constructor.
    + intros [H | []]. discriminate H.
    + constructor; [intros [] | constructor].
  - exists (extract_frames Sample.two_scene_video 4 10, 4%Z, 10%Z).
    split; [right; left; reflexivity |].
    intros H. vm_compute in H. discriminate H.
  - exists scene. split; [exact Ht |]. split; [reflexivity |].
    apply (Hno (extract_frames Sample.two_scene_video 0 4) 0%Z 4%Z).
    + left. reflexivity.
    + reflexivity.
Defined.

(** The query embeds, every frame shows noise: both scenes are scored -1. *)
Lemma no_match_no_output_witness :
  detect_scenes Sample.noise_video = Ok [(0, 4); (4, 10)]%Z /\
  get_query_embedding Sample.clip "dog" = Some (mkTensor 3 [4]) /\
  process_video Sample.noise_video "dog" "out.mp4"
    = Ok {| returned := None; written := [] |}.
Proof.
  split; [reflexivity |]. split; [reflexivity |].
  apply (no_match_no_output nat Sample.caption Sample.clip true
           Sample.writer Sample.noise_video
           "dog" "out.mp4" [(0, 4); (4, 10)]%Z eq_refl).
  intros s e [H | [H | []]]; injection H as <- <-; vm_compute; discriminate.
Defined.

(** C7 as stated fails: no cut is detected in a video of ten frames, and
    the scene list is empty, not the one interval (0, 10). *)
Lemma no_cut_is_not_one_interval :
  can_open Sample.still_video = true /\
  content_cuts Sample.still_video = [] /\
  detect_scenes Sample.still_video = Ok [] /\
  ~ exists scene, detect_scenes Sample.still_video = Ok [scene].
Proof.
  repeat (split; [reflexivity |]).
  intros [scene H]. discriminate H.
Qed.

(** On the video without a cut. *)
Lemma no_cut_no_scene_witness :
  can_open Sample.still_video = true /\
  content_cuts Sample.still_video = [] /\
  detect_scenes Sample.still_video = Ok [].
Proof.
  split; [reflexivity |]. split; [reflexivity |].
  apply (no_cut_no_scene nat Sample.caption Sample.clip Sample.writer
           Sample.still_video
           eq_refl eq_refl).
Defined.


(** *** Runs of the sample *)

(** Of two scenes of score 1/2 the first is kept. *)
Example tie_keeps_first_scene :
  top_scene (select_scene best_init
               [(1 # 3, (0, 4)); (1 # 2, (4, 7)); (1 # 2, (7, 10))]%Z)
  = Some (4, 7)%Z.
Proof. reflexivity. Qed.

(** Passing [start_in_scene=True] is what would give the one interval. *)
Example start_in_scene_one_interval :
  SceneDetect.get_scene_list [] 0 10 true = [(0, 10)%Z].
Proof. reflexivity. Qed.

(** Frame 10 does not decode: the last scene has six frames, not seven. *)
Example extract_frames_last_scene :
  extract_frames Sample.two_scene_video 4 10
  = [4; 5; 6; 7; 8; 9]%nat.
Proof. reflexivity. Qed.

(** The first scene holds a caption that cannot be embedded and is scored
    -1; the second one wins and is written out. *)
Example run_two_scenes :
  process_video Sample.two_scene_video "dog" "out.mp4"
  = Ok {| returned := Some "out.mp4";
          written := [("out.mp4", [4; 5; 6; 7; 8; 9]%nat)] |}.
Proof. reflexivity. Qed.

End OnSample.

(** ** Further properties of the scorer *)

Lemma unit1_pos (a : Q) : eps <= a -> unit1 a == 1.
Proof.
  intros Ha. unfold unit1.
  assert (Hpos : 0 < a) by (eapply Qlt_le_trans; [| exact Ha]; reflexivity).
  assert (Habs : Qabs a == a) by (apply Qabs_pos, Qlt_le_weak, Hpos).
  assert (Hmax : Qmax (Qabs a) eps == a).
  { rewrite Q.max_l; [exact Habs | rewrite Habs; exact Ha]. }
  rewrite Hmax. field. intros H0. rewrite H0 in Hpos. discriminate Hpos.
Qed.

Lemma unit1_neg (a : Q) : a <= - eps -> unit1 a == -1.
Proof.
  intros Ha. unfold unit1.
  assert (Hneg : a < 0) by (eapply Qle_lt_trans; [exact Ha |]; reflexivity).
  assert (Habs : Qabs a == - a) by (apply Qabs_neg, Qlt_le_weak, Hneg).
  assert (Hmax : Qmax (Qabs a) eps == - a).
  { rewrite Q.max_l; [exact Habs | rewrite Habs; lra]. }
  rewrite Hmax. field. intros H0. rewrite H0 in Hneg. discriminate Hneg.
Qed.

Lemma cos1_same_sign (a b : Q) : Facts.same_sign a b -> cos1 a b == 1.
Proof.
  unfold cos1. intros [[Ha Hb] | [Ha Hb]].
  - rewrite (unit1_pos a Ha), (unit1_pos b Hb). reflexivity.
  - rewrite (unit1_neg a Ha), (unit1_neg b Hb). reflexivity.
Qed.

Lemma cos1_opposite_sign (a b : Q) : Facts.opposite_sign a b -> cos1 a b == -1.
Proof.
  unfold cos1. intros [[Ha Hb] | [Ha Hb]].
  - rewrite (unit1_pos a Ha), (unit1_neg b Hb). reflexivity.
  - rewrite (unit1_neg a Ha), (unit1_pos b Hb). reflexivity.
Qed.

Lemma Qsum_const (c : Q) (l : list Q) :
  Forall (fun x => x == c) l ->
  Qsum l == c * inject_Z (Z.of_nat (List.length l)).
Proof.
  induction 1 as [| x l Hx _ IH].
  - change (0 == c * 0). ring.
  - cbn [List.length Qsum fold_right].
    change (fold_right Qplus 0 l) with (Qsum l).
    rewrite Nat2Z.inj_succ. unfold Z.succ. rewrite inject_Z_plus, IH, Hx.
    change (inject_Z 1) with 1. lra.
Qed.

Lemma mean_const (c : Q) (t : list (list Q)) :
  concat t <> [] -> Forall (Forall (fun x => x == c)) t -> mean t == c.
Proof.
  intros Hne Hall. unfold mean.
  assert (Hflat : Forall (fun x => x == c) (concat t)).
  { clear Hne. induction Hall as [| r t Hr _ IH]; simpl.
    - constructor.
    - apply Forall_app. split; [exact Hr | exact IH]. }
  rewrite (Qsum_const c _ Hflat).
  assert (Hpos : 0 < inject_Z (Z.of_nat (List.length (concat t)))).
  { destruct (concat t) as [| x l]; [congruence |].
    cbn [List.length]. rewrite Nat2Z.inj_succ.
    change 0 with (inject_Z 0). rewrite <- Zlt_Qlt. lia. }
  field. intros H0. rewrite H0 in Hpos. discriminate Hpos.
Qed.

(** When every component of the query and of a caption embedding are
    related by [R], the row of similarities is made of the values [cos1]
    takes on related components. *)
Lemma cos_row_related (R : Q -> Q -> Prop) (c : Q) (x : list Q) (t : Tensor) :
  (forall a b, R a b -> cos1 a b == c) ->
  Forall2 R x (row t) ->
  exists r, cos_row x t = Ok r /\ Forall (fun s => s == c) r /\
            List.length r = List.length x.
Proof.
  intros HR HF. unfold cos_row, broadcast_last.
  rewrite (Forall2_length HF), Nat.eqb_refl. simpl.
  eexists. split; [reflexivity |]. split.
  - induction HF as [| a b x' y' Hab _ IH]; simpl; constructor.
    + apply HR. exact Hab.
    + exact IH.
  - rewrite length_map, length_combine, (Forall2_length HF).
    apply Nat.min_id.
Qed.

Lemma cos_rows_related (R : Q -> Q -> Prop) (c : Q) (x : list Q)
    (ts : list Tensor) :
  (forall a b, R a b -> cos1 a b == c) ->
  x <> [] ->
  Forall (fun t => Forall2 R x (row t)) ts ->
  exists rows, cos_rows x ts = Ok rows /\
               Forall (Forall (fun s => s == c)) rows /\
               (ts <> [] -> concat rows <> []).
Proof.
  intros HR Hx Hall. induction Hall as [| t ts Ht _ IH]; simpl.
  - exists []. split; [reflexivity |]. split; [constructor | congruence].
  - destruct (cos_row_related R c x t HR Ht) as (r & -> & Hr & Hlen).
    destruct IH as (rows & -> & Hrows & _). simpl.
    exists (r :: rows). split; [reflexivity |]. split.
    + constructor; assumption.
    + intros _. simpl. destruct r as [| s r]; [| discriminate].
      destruct x; [congruence | discriminate].
Qed.

Lemma all_tensors_None (l : list (option Tensor)) :
  In None l -> all_tensors l = None.
Proof.
  induction l as [| o l IH]; intros Hin; [destruct Hin |].
  destruct o as [t |]; [| reflexivity].
  destruct Hin as [H | Hin]; [discriminate |].
  simpl. rewrite (IH Hin). reflexivity.
Qed.

Lemma map_Some_nil {A : Type} (l : list A) : map Some l = [] -> l = [].
Proof. destruct l; [reflexivity | discriminate]. Qed.

Lemma filter_none {A : Type} (f : A -> bool) (l : list A) :
  (forall x, In x l -> f x = false) -> filter f l = [].
Proof.
  induction l as [| x l IH]; intros H; simpl; [reflexivity |].
  rewrite (H x (or_introl eq_refl)). apply IH.
  intros y Hy. apply H. right. exact Hy.
Qed.

Lemma filter_all {A : Type} (f : A -> bool) (l : list A) :
  (forall x, In x l -> f x = true) -> filter f l = l.
Proof.
  induction l as [| x l IH]; intros H; simpl; [reflexivity |].
  rewrite (H x (or_introl eq_refl)). f_equal. apply IH.
  intros y Hy. apply H. right. exact Hy.
Qed.

Section MoreScorer.

Variable Frame : Type.
Variable blip_caption : Frame -> option string.
Variable clip_text_features : string -> option Tensor.

Local Abbreviation caption_embeddings :=
  (caption_embeddings Frame blip_caption clip_text_features).
Local Abbreviation compute_I2T_embeddings :=
  (compute_I2T_embeddings Frame blip_caption clip_text_features).
Local Abbreviation process_scene :=
  (process_scene Frame blip_caption clip_text_features).
Local Abbreviation score_and_select :=
  (score_and_select Frame blip_caption clip_text_features).
Local Abbreviation scored_scenes :=
  (scored_scenes Frame blip_caption clip_text_features).
Local Abbreviation frame_embedding :=
  (Spec.frame_embedding Frame blip_caption clip_text_features).

Lemma caption_embeddings_all (P : Tensor -> Prop) (frames : list Frame) :
  Forall (fun frame => exists t, frame_embedding frame = Some t /\ P t)
    frames ->
  exists ts, caption_embeddings frames [] = map Some ts /\ Forall P ts /\
             List.length ts = List.length frames.
Proof.
  intros Hall. rewrite caption_embeddings_flat. simpl.
  induction Hall as [| frame frames (t & Ht & HP) _ (ts & IH & HPs & Hlen)].
  - exists []. repeat split. constructor.
  - exists (t :: ts). unfold Spec.frame_embedding in Ht. simpl.
    destruct (blip_caption frame) as [query |]; [| discriminate].
    simpl. rewrite Ht, IH. split; [reflexivity |].
    split; [constructor; assumption | simpl; congruence].
Qed.

Lemma process_scene_related (R : Q -> Q -> Prop) (c : Q)
    (frames : list Frame) (q : Tensor) :
  (forall a b, R a b -> cos1 a b == c) ->
  frames <> [] ->
  Forall (fun frame => exists t, frame_embedding frame = Some t /\
                                 Forall2 R (row q) (row t)) frames ->
  process_scene frames (Some q) == c.
Proof.
  intros HR Hne Hall.
  destruct (caption_embeddings_all _ frames Hall) as (ts & Hce & Hts & Hlen).
  assert (Hts_ne : ts <> []).
  { intros ->. destruct frames; [congruence | discriminate]. }
  assert (Hstack : stack (caption_embeddings frames []) = Ok ts).
  { apply stack_Ok. split; [exact Hce |]. split; [exact Hts_ne |].
    rewrite Forall_forall in Hts. intros a b Ha Hb. unfold dim.
    rewrite <- (Forall2_length (Hts a Ha)), <- (Forall2_length (Hts b Hb)).
    reflexivity. }
  destruct (cos_rows_related R c (row q) ts HR) as (rows & Hrows & Hc & Hflat);
    [discriminate | exact Hts |].
  unfold VideoProcessor.process_scene, VideoProcessor.compute_I2T_embeddings.
  rewrite Hstack. simpl. rewrite Hrows. simpl.
  apply mean_const; [apply Hflat; exact Hts_ne | exact Hc].
Qed.

Lemma score_and_select_skip_le (q : option Tensor)
    (before after : list (list Frame * Z * Z))
    (frames_in_scene : list Frame) (scene_start scene_end : Z) :
  process_scene frames_in_scene q <= -1 ->
  score_and_select q
    (before ++ (frames_in_scene, scene_start, scene_end) :: after) best_init
  = score_and_select q (before ++ after) best_init.
Proof.
  intros Hs. rewrite !score_and_select_scored.
  unfold VideoProcessor.scored_scenes. rewrite !map_app. cbn [map].
  unfold select_scene. rewrite !fold_left_app. cbn [fold_left].
  f_equal. apply update_best_keep.
  eapply Qle_trans; [exact Hs |].
  apply (selected_floor (scored_scenes q before)), select_scene_selected.
Qed.

(** X1. The score only sees the signs of the components: when every frame
    is captioned and embedded and every component of every caption
    embedding has the sign of the matching component of the query
    embedding (all of size at least eps), the scene is scored 1, whatever
    the angle between the vectors. *)
Theorem sign_agreement_scores_one (frames : list Frame) (q : Tensor) :
  frames <> [] ->
  Forall (fun frame => exists t, frame_embedding frame = Some t /\
                                 Forall2 Facts.same_sign (row q) (row t))
    frames ->
  process_scene frames (Some q) == 1.
Proof.
  intros Hne Hall.
  apply (process_scene_related Facts.same_sign 1 frames q cos1_same_sign
           Hne Hall).
Qed.

(** X2. A scene all of whose frames are captioned and embedded can still get
    -1, the value kept for failed scenes: when every component of every
    caption embedding has the sign opposite to the query's (all of size at
    least eps), the score is -1
    and the scene is passed over like a failed one. *)
Theorem sign_opposition_scores_like_failure (frames : list Frame) (q : Tensor) :
  frames <> [] ->
  Forall (fun frame => exists t, frame_embedding frame = Some t /\
                                 Forall2 Facts.opposite_sign (row q) (row t))
    frames ->
  process_scene frames (Some q) == -1 /\
  forall before after scene_start scene_end,
    score_and_select (Some q)
      (before ++ (frames, scene_start, scene_end) :: after) best_init
    = score_and_select (Some q) (before ++ after) best_init.
Proof.
  intros Hne Hall.
  assert (Hs : process_scene frames (Some q) == -1).
  { apply (process_scene_related Facts.opposite_sign (-1) frames q
             cos1_opposite_sign Hne Hall). }
  split; [exact Hs |].
  intros before after scene_start scene_end.
  apply score_and_select_skip_le. rewrite Hs. apply Qle_refl.
Qed.

(** X3. One caption that cannot be embedded fails the whole scene: the None
    that [get_query_embedding] returns is appended to the list, and
    [torch.stack] raises on it, whatever the other frames gave. *)
Theorem one_failed_embedding_fails_scene
    (frames : list Frame) (query_embedding : option Tensor)
    (frame : Frame) (caption : string) :
  In frame frames ->
  blip_caption frame = Some caption ->
  clip_text_features caption = None ->
  compute_I2T_embeddings frames = Raise TypeError /\
  process_scene frames query_embedding = -1.
Proof.
  intros Hin Hcap Hclip.
  assert (Hnone : In None (caption_embeddings frames [])).
  { rewrite caption_embeddings_flat. simpl. apply in_flat_map.
    exists frame. split; [exact Hin |]. rewrite Hcap, Hclip. left. reflexivity. }
  assert (Hc : compute_I2T_embeddings frames = Raise TypeError).
  { unfold VideoProcessor.compute_I2T_embeddings, stack.
    rewrite (all_tensors_None _ Hnone). reflexivity. }
  split; [exact Hc |].
  unfold VideoProcessor.process_scene. rewrite Hc. reflexivity.
Qed.

(** X4. Frames on which captioning raises are left out and change
    nothing: the scene is scored as if they were not in it. *)
Theorem uncaptioned_frames_are_skipped
    (frames : list Frame) (query_embedding : option Tensor) :
  caption_embeddings (filter (Facts.captioned blip_caption) frames) []
    = caption_embeddings frames [] /\
  process_scene (filter (Facts.captioned blip_caption) frames) query_embedding
    = process_scene frames query_embedding.
Proof.
  assert (H : caption_embeddings
                (filter (Facts.captioned blip_caption) frames) []
              = caption_embeddings frames []).
  { rewrite !caption_embeddings_flat. simpl.
    induction frames as [| frame frames IH]; simpl; [reflexivity |].
    unfold Facts.captioned at 1.
    destruct (blip_caption frame) as [query |] eqn:E; simpl.
    - rewrite E, IH. reflexivity.
    - exact IH. }
  split; [exact H |].
  unfold VideoProcessor.process_scene, VideoProcessor.compute_I2T_embeddings.
  rewrite H. reflexivity.
Qed.

End MoreScorer.

(** ** Further properties of the run *)

Section MoreRun.

Variable Frame : Type.
Variable blip_caption : Frame -> option string.
Variable clip_text_features : string -> option Tensor.
Variable models_load : bool.
Variable writer_opens : Video Frame -> string -> bool.

Local Abbreviation get_query_embedding :=
  (get_query_embedding clip_text_features).
Local Abbreviation process_scene :=
  (process_scene Frame blip_caption clip_text_features).
Local Abbreviation scored_scenes :=
  (scored_scenes Frame blip_caption clip_text_features).
Local Abbreviation process_video :=
  (process_video Frame blip_caption clip_text_features writer_opens).
Local Abbreviation process_video_with_gradio :=
  (process_video_with_gradio Frame blip_caption clip_text_features
     models_load writer_opens).

Lemma extract_frames_In (video : Video Frame) (scene_start scene_end t : Z)
    (frame : Frame) :
  (scene_start <= t <= scene_end)%Z ->
  frame_at video t = Some frame ->
  In frame (extract_frames video scene_start scene_end).
Proof.
  intros Ht Hf.
  pose proof (read_frames_filter Frame video
                (range scene_start (scene_end + 1)) []) as Hr.
  simpl in Hr. fold (extract_frames video scene_start scene_end) in Hr.
  assert (Hin : In (Some frame)
                  (map Some (extract_frames video scene_start scene_end))).
  { rewrite Hr. apply in_map_iff. exists t. split; [exact Hf |].
    apply filter_In. split; [apply range_In; lia |].
    unfold decodes. rewrite Hf. reflexivity. }
  apply in_map_iff in Hin. destruct Hin as (f & Hf' & Hin).
  injection Hf' as ->. exact Hin.
Qed.

(** X5. A frame is sampled for a scene exactly when it is the frame read at
    some frame number of [start, end], both ends included. *)
Theorem extract_frames_membership
    (video : Video Frame) (scene_start scene_end : Z) (frame : Frame) :
  In frame (extract_frames video scene_start scene_end) <->
  exists t, (scene_start <= t <= scene_end)%Z /\
            frame_at video t = Some frame.
Proof.
  split.
  - intros Hin.
    pose proof (read_frames_filter Frame video
                  (range scene_start (scene_end + 1)) []) as Hr.
    simpl in Hr. fold (extract_frames video scene_start scene_end) in Hr.
    apply (in_map Some) in Hin. rewrite Hr in Hin.
    apply in_map_iff in Hin. destruct Hin as (t & Ht & Hin).
    apply filter_In in Hin. destruct Hin as [Hin _].
    apply range_In in Hin. exists t. split; [lia | exact Ht].
  - intros (t & Ht & Hf). apply (extract_frames_In video _ _ t); assumption.
Qed.

(** X6. When every frame of the interval decodes, the sample is the frame
    of each number from start to end, [end - start + 1] of them. *)
Theorem extract_frames_complete
    (video : Video Frame) (scene_start scene_end : Z) :
  (forall t, (scene_start <= t <= scene_end)%Z -> decodes video t = true) ->
  map Some (extract_frames video scene_start scene_end)
    = map (frame_at video) (range scene_start (scene_end + 1)) /\
  List.length (extract_frames video scene_start scene_end)
    = Z.to_nat (scene_end - scene_start + 1).
Proof.
  intros Hall.
  pose proof (read_frames_filter Frame video
                (range scene_start (scene_end + 1)) []) as Hr.
  simpl in Hr. fold (extract_frames video scene_start scene_end) in Hr.
  rewrite filter_all in Hr.
  - split; [exact Hr |].
    rewrite <- (length_map Some), Hr, length_map, range_length. f_equal. lia.
  - intros t Ht. apply range_In in Ht. apply Hall. lia.
Qed.

(** X7. A scene none of whose frames decodes (an interval past the end of
    the file, an empty interval, a video OpenCV cannot read) gives no frame
    and is scored -1. *)
Theorem undecodable_scene_scores_sentinel
    (video : Video Frame) (scene_start scene_end : Z)
    (query_embedding : option Tensor) :
  (forall t, (scene_start <= t <= scene_end)%Z -> frame_at video t = None) ->
  extract_frames video scene_start scene_end = [] /\
  process_scene (extract_frames video scene_start scene_end) query_embedding
    = -1.
Proof.
  intros Hall.
  assert (He : extract_frames video scene_start scene_end = []).
  { pose proof (read_frames_filter Frame video
                  (range scene_start (scene_end + 1)) []) as Hr.
    simpl in Hr. fold (extract_frames video scene_start scene_end) in Hr.
    rewrite filter_none in Hr; [apply map_Some_nil; exact Hr |].
    intros t Ht. apply range_In in Ht. unfold decodes.
    rewrite Hall by lia. reflexivity. }
  split; [exact He |]. rewrite He. reflexivity.
Qed.

(** The three shapes of what [process_video] gives. *)
Lemma process_video_cases (video : Video Frame) (query path : string) :
  (can_open video = false /\
   process_video video query path = Raise OSError)
  \/
  (can_open video = true /\
   process_video video query path = Ok {| returned := None; written := [] |})
  \/
  (can_open video = true /\
   exists frames,
     process_video video query path
     = Ok {| returned := Some path;
             written := if writer_opens video path
                        then [(path, frames)] else [] |}).
Proof.
  unfold VideoProcessor.process_video, detect_scenes.
  destruct (can_open video); [right | left; split; reflexivity].
  cbn [bind]. destruct (top_scene _) as [[s e] |].
  - right. split; [reflexivity |]. eexists. reflexivity.
  - left. split; reflexivity.
Qed.

(** X8. A run ends in one of three ways.  It raises when the video cannot
    be opened.  It returns None and writes nothing when no scene is scored
    above -1.  Else it returns the path it was given; a file is left
    there, holding the frames of the first scene of highest score read
    again from the video, when OpenCV opened a writer for that path, and
    no file at all when it did not: the path is returned all the same. *)
Theorem process_video_outcomes (video : Video Frame) (query path : string) :
  (can_open video = false /\
   process_video video query path = Raise OSError)
  \/
  (exists scene_list,
     detect_scenes video = Ok scene_list /\
     ((forall scene_start scene_end,
         In (scene_start, scene_end) scene_list ->
         process_scene (extract_frames video scene_start scene_end)
           (get_query_embedding query) <= -1) /\
      process_video video query path
        = Ok {| returned := None; written := [] |}
      \/
      exists i scene_start scene_end,
        nth_error scene_list i = Some (scene_start, scene_end) /\
        Spec.first_max
          (map fst (scored_scenes (get_query_embedding query)
                      (scene_frames video scene_list))) i /\
        process_video video query path
          = Ok {| returned := Some path;
                  written := if writer_opens video path
                             then [(path, extract_frames video scene_start
                                            scene_end)]
                             else [] |})).
Proof.
  destruct (can_open video) eqn:Ho.
  - right.
    assert (Hd : detect_scenes video
                 = Ok (SceneDetect.get_scene_list (content_cuts video) 0
                         (frame_count video) false)).
    { unfold detect_scenes. rewrite Ho. reflexivity. }
    eexists. split; [exact Hd |].
    rewrite (process_video_select _ _ _ _ _ _ _ _ Hd).
    set (scene_list := SceneDetect.get_scene_list (content_cuts video) 0
                         (frame_count video) false) in *.
    destruct (select_scene_selected
                (scored_scenes (get_query_embedding query)
                   (scene_frames video scene_list)))
      as [(Ht & _ & Hall) | (i & sc & Hi & Hmax & Ht & _)].
    + left. rewrite Ht. split; [| reflexivity].
      intros s e Hin.
      apply (Hall (process_scene (extract_frames video s e)
                     (get_query_embedding query), (s, e))).
      unfold VideoProcessor.scored_scenes, scene_frames. rewrite map_map.
      apply in_map_iff. exists (s, e). split; [reflexivity | exact Hin].
    + right. rewrite Ht.
      unfold VideoProcessor.scored_scenes, scene_frames in Hi.
      rewrite map_map, nth_error_map in Hi.
      destruct (nth_error scene_list i) as [[s e] |] eqn:Hn; [| discriminate].
      simpl in Hi. injection Hi as <-. simpl.
      exists i, s, e. split; [exact Hn |]. split; [exact Hmax |].
      reflexivity.
  - left. split; [reflexivity |].
    unfold VideoProcessor.process_video, detect_scenes. rewrite Ho.
    reflexivity.
Qed.


(** X9. The interface rejects a missing video or an empty query with its
    own message, before any scene is detected or any model is called: the
    answer does not depend on the video given nor on the models. *)
Theorem gradio_rejects_missing_input
    (video_file : option (Video Frame)) (query stamp : string) :
  video_file = None \/ truthy query = false ->
  process_video_with_gradio video_file query stamp
  = Some (None,
          Some "Query and Video are required. Please enter a search term."%string).
Proof.
  unfold VideoProcessor.process_video_with_gradio.
  intros [-> | Hq]; [reflexivity |].
  destruct video_file as [video |]; [| reflexivity].
  rewrite Hq. reflexivity.
Qed.

(** X10. With a video and a non-empty query the interface answers in one of
    three ways: nothing at all (Python's None: neither a clip nor a
    message) exactly when loading the models raises or the video cannot be
    opened; else the message "No relevant scene found." without a clip;
    else the name "output_<stamp>" without a message, and under that name
    there is a file only when OpenCV opened a writer for it. *)
Theorem gradio_outcomes
    (video : Video Frame) (query stamp : string) :
  truthy query = true ->
  ((models_load = false \/ can_open video = false) /\
   process_video_with_gradio (Some video) query stamp = None)
  \/
  (models_load = true /\ can_open video = true /\
   process_video video query ("output_" ++ stamp)
     = Ok {| returned := None; written := [] |} /\
   process_video_with_gradio (Some video) query stamp
     = Some (None, Some "No relevant scene found."%string))
  \/
  (models_load = true /\ can_open video = true /\
   (exists frames,
      process_video video query ("output_" ++ stamp)
        = Ok {| returned := Some ("output_" ++ stamp)%string;
                written := if writer_opens video ("output_" ++ stamp)
                           then [(("output_" ++ stamp)%string, frames)]
                           else [] |}) /\
   process_video_with_gradio (Some video) query stamp
     = Some (Some ("output_" ++ stamp)%string, None)).
Proof.
  intros Hq. unfold VideoProcessor.process_video_with_gradio. rewrite Hq.
  destruct models_load.
  - cbn [bind].
    destruct (process_video_cases video query ("output_" ++ stamp))
      as [[Ho Hp] | [[Ho Hp] | (Ho & frames & Hp)]].
    + left. split; [right; exact Ho |]. rewrite Hp. reflexivity.
    + right. left. split; [reflexivity |].
      split; [exact Ho |]. split; [exact Hp |]. rewrite Hp. reflexivity.
    + right. right. split; [reflexivity |].
      split; [exact Ho |]. split; [exists frames; exact Hp |].
      rewrite Hp. reflexivity.
  - left. split; [left; reflexivity | reflexivity].
Qed.

(** X11. A video that opens for scene detection but of which OpenCV decodes
    no frame ends the run with None and no file, whatever scenes were
    detected and whatever the query. *)
Theorem undecodable_video_gives_no_match
    (video : Video Frame) (query path : string) :
  can_open video = true ->
  (forall t, frame_at video t = None) ->
  process_video video query path = Ok {| returned := None; written := [] |}.
Proof.
  intros Ho Hnone.
  assert (Hd : detect_scenes video
               = Ok (SceneDetect.get_scene_list (content_cuts video) 0
                       (frame_count video) false)).
  { unfold detect_scenes. rewrite Ho. reflexivity. }
  apply (process_video_none _ _ _ _ _ _ _ _ Hd).
  intros sc Hin. unfold VideoProcessor.scored_scenes, scene_frames in Hin.
  rewrite map_map in Hin. apply in_map_iff in Hin.
  destruct Hin as ([s e] & <- & _). simpl.
  assert (He : extract_frames video s e = []).
  { pose proof (read_frames_filter Frame video (range s (e + 1)) []) as Hr.
    simpl in Hr. fold (extract_frames video s e) in Hr.
    rewrite filter_none in Hr; [apply map_Some_nil; exact Hr |].
    intros t _. unfold decodes. rewrite Hnone. reflexivity. }
  rewrite He. apply Qle_refl.
Qed.

End MoreRun.

(** ** Further properties of the Scene Detector *)

Section MoreDetector.

Variable Frame : Type.

Lemma scenes_from_ends (last_cut : Z) (cut_list : list Z) (end_pos : Z) :
  map snd (SceneDetect.scenes_from last_cut cut_list end_pos)
  = cut_list ++ [end_pos].
Proof.
  revert last_cut. induction cut_list as [| cut cuts IH]; intros last_cut.
  - reflexivity.
  - simpl. rewrite IH. reflexivity.
Qed.

Lemma scenes_from_adjacent (last_cut : Z) (cut_list : list Z) (end_pos : Z)
    (i : nat) (s1 e1 s2 e2 : Z) :
  nth_error (SceneDetect.scenes_from last_cut cut_list end_pos) i
    = Some (s1, e1) ->
  nth_error (SceneDetect.scenes_from last_cut cut_list end_pos) (S i)
    = Some (s2, e2) ->
  e1 = s2.
Proof.
  revert last_cut i. induction cut_list as [| cut cuts IH]; intros last_cut i.
  - simpl. destruct i; discriminate.
  - destruct i as [| i].
    + simpl. intros H1 H2. injection H1 as <- <-.
      destruct cuts; simpl in H2; injection H2 as <- _; reflexivity.
    + cbn [SceneDetect.scenes_from nth_error]. apply IH.
Qed.

(** X12. When the detector finds cuts, the video is divided at them: one
    scene more than there are cuts, the first from frame 0, each scene
    ending at the frame number where the next one starts, the last ending
    at the number of frames processed. *)
Theorem detect_scenes_divides_at_cuts
    (video : Video Frame) (cut : Z) (cuts : list Z) :
  can_open video = true ->
  content_cuts video = cut :: cuts ->
  exists scene_list,
    detect_scenes video = Ok scene_list /\
    map fst scene_list = 0%Z :: cut :: cuts /\
    map snd scene_list = (cut :: cuts) ++ [frame_count video].
Proof.
  intros Ho Hc. unfold detect_scenes. rewrite Ho, Hc.
  eexists. split; [reflexivity |].
  unfold SceneDetect.get_scene_list, SceneDetect.get_scenes_from_cuts.
  cbn [SceneDetect.is_empty andb].
  split; [apply scenes_from_starts | apply scenes_from_ends].
Qed.

(** X13. The end of a detected scene is the first frame of the next one, and
    the sampler reads up to the end included: the frame at a cut is
    sampled for the scene before the cut and for the scene after it. *)
Theorem cut_frame_sampled_twice
    (video : Video Frame) (scene_list : list (Z * Z)) (i : nat)
    (s1 e1 s2 e2 : Z) (frame : Frame) :
  detect_scenes video = Ok scene_list ->
  nth_error scene_list i = Some (s1, e1) ->
  nth_error scene_list (S i) = Some (s2, e2) ->
  (s1 <= e1)%Z -> (s2 <= e2)%Z ->
  frame_at video e1 = Some frame ->
  e1 = s2 /\
  In frame (extract_frames video s1 e1) /\
  In frame (extract_frames video s2 e2).
Proof.
  intros Hd H1 H2 Hle1 Hle2 Hf.
  assert (He : e1 = s2).
  { unfold detect_scenes in Hd. destruct (can_open video); [| discriminate].
    injection Hd as <-. unfold SceneDetect.get_scene_list in H1, H2.
    destruct (SceneDetect.is_empty (content_cuts video) && negb false).
    - destruct i; discriminate.
    - eapply scenes_from_adjacent; eassumption. }
  split; [exact He |]. split.
  - apply (extract_frames_In Frame video s1 e1 e1); [lia | exact Hf].
  - apply (extract_frames_In Frame video s2 e2 e1); [lia | exact Hf].
Qed.

End MoreDetector.

(** ** The chatbot *)

Lemma append_assoc (s1 s2 s3 : string) :
  ((s1 ++ s2) ++ s3 = s1 ++ (s2 ++ s3))%string.
Proof.
  induction s1 as [| c s1 IH]; simpl; [reflexivity |].
  rewrite IH. reflexivity.
Qed.

Lemma append_nil_r (s : string) : (s ++ "" = s)%string.
Proof.
  induction s as [| c s IH]; simpl; [reflexivity |].
  rewrite IH. reflexivity.
Qed.

Section Chatbot.

Variable Dataset : Type.
Variable format : list string -> Dataset -> string -> string.
Variable stream : list NLtoSQL.message -> list string * option exn.
Variable sys_text : string.

Local Abbreviation chatbot := (NLtoSQL.chatbot Dataset).
Local Abbreviation call := (NLtoSQL.call Dataset format stream).
Local Abbreviation call_times := (NLtoSQL.call_times Dataset format stream).
Local Abbreviation init := (NLtoSQL.init Dataset sys_text).

(** The prompt of the object: it is fixed at construction. *)
Local Abbreviation prompt_of self :=
  (format (NLtoSQL.schema Dataset self) (NLtoSQL.dataset Dataset self)
     (NLtoSQL.input Dataset self)).

Lemma responses_nth (response : string) (chunks : list string) (k : nat) :
  (k < List.length chunks)%nat ->
  nth_error (NLtoSQL.responses response chunks) k
  = Some (response ++ fold_right String.append "" (firstn (S k) chunks))%string.
Proof.
  revert response k. induction chunks as [| chunk chunks IH];
    intros response k Hk; simpl in Hk; [lia |].
  destruct k as [| k].
  - cbn [NLtoSQL.responses nth_error firstn fold_right].
    rewrite append_nil_r. reflexivity.
  - cbn [NLtoSQL.responses nth_error]. rewrite IH by lia.
    rewrite append_assoc. reflexivity.
Qed.

Lemma responses_length (response : string) (chunks : list string) :
  List.length (NLtoSQL.responses response chunks) = List.length chunks.
Proof.
  revert response. induction chunks as [| chunk chunks IH]; intros response;
    simpl; [reflexivity | rewrite IH; reflexivity].
Qed.

Lemma responses_last (response seen : string) (chunks : list string) :
  fold_left (fun _ chunk : string => chunk)
    (NLtoSQL.responses response chunks) seen
  = match chunks with
    | [] => seen
    | _ => (response ++ fold_right String.append "" chunks)%string
    end.
Proof.
  revert response seen. induction chunks as [| chunk chunks IH];
    intros response seen; [reflexivity |].
  cbn [NLtoSQL.responses fold_left]. rewrite IH.
  destruct chunks as [| chunk' chunks].
  - cbn [fold_right]. rewrite append_nil_r. reflexivity.
  - cbn [fold_right]. rewrite append_assoc. reflexivity.
Qed.

Lemma call_state (self : chatbot) :
  snd (call self)
  = {| NLtoSQL.input := NLtoSQL.input Dataset self;
       NLtoSQL.schema := NLtoSQL.schema Dataset self;
       NLtoSQL.dataset := NLtoSQL.dataset Dataset self;
       NLtoSQL.chat_messages :=
         NLtoSQL.chat_messages Dataset self
           ++ [NLtoSQL.HumanMessage (prompt_of self)] |}.
Proof.
  unfold NLtoSQL.call. destruct (stream _) as [chunks raised]. reflexivity.
Qed.

Lemma call_times_messages (n : nat) (self : chatbot) :
  NLtoSQL.chat_messages Dataset (call_times n self)
  = NLtoSQL.chat_messages Dataset self
      ++ repeat (NLtoSQL.HumanMessage (prompt_of self)) n /\
  prompt_of (call_times n self) = prompt_of self.
Proof.
  revert self. induction n as [| n IH]; intros self.
  - simpl. rewrite app_nil_r. split; reflexivity.
  - cbn [NLtoSQL.call_times repeat].
    destruct (IH (snd (call self))) as [Hm Hp].
    rewrite Hm, Hp, call_state. simpl. rewrite <- app_assoc.
    split; reflexivity.
Qed.

(** X14. [call] yields the answer as it grows: as many values as the stream
    gave chunks, the k-th being the first k chunks put together; the
    response the loop of the last cell ends with is all the chunks put
    together, and the empty string when the stream gave none. *)
Theorem call_yields_growing_answer (self : chatbot) :
  let chunks :=
    fst (stream (NLtoSQL.chat_messages Dataset self
                   ++ [NLtoSQL.HumanMessage (prompt_of self)])) in
  let yielded := fst (fst (call self)) in
  List.length yielded = List.length chunks /\
  (forall k, (k < List.length chunks)%nat ->
     nth_error yielded k
     = Some (fold_right String.append ""%string (firstn (S k) chunks))) /\
  NLtoSQL.full_response yielded = fold_right String.append ""%string chunks.
Proof.
  unfold NLtoSQL.call. destruct (stream _) as [chunks raised]. simpl.
  split; [apply responses_length |]. split.
  - intros k Hk. rewrite responses_nth by exact Hk. reflexivity.
  - unfold NLtoSQL.full_response. rewrite responses_last.
    destruct chunks; reflexivity.
Qed.

(** X15. The history only ever gains the question.  After [n] calls on a new
    object it is the system message followed by [n] copies of the one
    prompt built from the input given at construction; no answer of the
    model is put into it. *)
Theorem history_holds_question_only
    (n : nat) (input : string) (columns : list NLtoSQL.column)
    (data : Dataset) :
  NLtoSQL.chat_messages Dataset (call_times n (init input columns data))
  = NLtoSQL.SystemMessage sys_text
      :: repeat (NLtoSQL.HumanMessage
                   (format (NLtoSQL.get_schema columns) data input)) n.
Proof.
  destruct (call_times_messages n (init input columns data)) as [Hm _].
  rewrite Hm. reflexivity.
Qed.

End Chatbot.

(** ** The further properties on the sample instance *)

Section MoreOnSample.

Local Open Scope string_scope.

Local Abbreviation process_scene :=
  (process_scene nat Sample.caption Sample.clip).
Local Abbreviation frame_embedding :=
  (Spec.frame_embedding nat Sample.caption Sample.clip).

(** The caption of frame 1 embeds to (4, 3), the query to (3, 4). *)
Lemma sign_agreement_scores_one_witness :
  Forall (fun frame => exists t, frame_embedding frame = Some t /\
                                 Forall2 Facts.same_sign
                                   (row (mkTensor 3 [4])) (row t))
    [1%nat] /\
  process_scene [1%nat] (Some (mkTensor 3 [4])) == 1.
Proof.
  assert (H : Forall (fun frame => exists t, frame_embedding frame = Some t /\
                                 Forall2 Facts.same_sign
                                   (row (mkTensor 3 [4])) (row t))
                [1%nat]).
  { constructor; [| constructor]. exists (mkTensor 4 [3]).
    split; [reflexivity |].
    constructor; [left; split; vm_compute; discriminate |].
    constructor; [left; split; vm_compute; discriminate | constructor]. }
  split; [exact H |].
  apply (sign_agreement_scores_one nat Sample.caption Sample.clip
           [1%nat] (mkTensor 3 [4])); [discriminate | exact H].
Defined.

(** The caption of frame 2 embeds to (-3, 4); the query is (3, -4). *)
Lemma sign_opposition_scores_like_failure_witness :
  Forall (fun frame => exists t, frame_embedding frame = Some t /\
                                 Forall2 Facts.opposite_sign
                                   (row (mkTensor 3 [-4])) (row t))
    [2%nat] /\
  process_scene [2%nat] (Some (mkTensor 3 [-4])) == -1.
Proof.
  assert (H : Forall (fun frame => exists t, frame_embedding frame = Some t /\
                                 Forall2 Facts.opposite_sign
                                   (row (mkTensor 3 [-4])) (row t))
                [2%nat]).
  { constructor; [| constructor]. exists (mkTensor (-3) [4]).
    split; [reflexivity |].
    constructor; [left; split; vm_compute; discriminate |].
    constructor; [right; split; vm_compute; discriminate | constructor]. }
  split; [exact H |].
  apply (sign_opposition_scores_like_failure nat Sample.caption Sample.clip
           [2%nat] (mkTensor 3 [-4])); [discriminate | exact H].
Defined.

(** Frame 1 embeds; the caption of frame 3 does not. *)
Lemma one_failed_embedding_fails_scene_witness :
  In 3%nat [1%nat; 3%nat] /\
  Sample.caption 3 = Some "noise" /\
  Sample.clip "noise" = None /\
  process_scene [1%nat; 3%nat] (Some (mkTensor 3 [4])) = -1.
Proof.
  split; [right; left; reflexivity |].
  split; [reflexivity |]. split; [reflexivity |].
  apply (one_failed_embedding_fails_scene nat Sample.caption Sample.clip
           [1%nat; 3%nat] (Some (mkTensor 3 [4])) 3%nat "noise").
  - right; left; reflexivity.
  - reflexivity.
  - reflexivity.
Defined.

(** Frames 0 to 4 of the sample video all decode. *)
Lemma extract_frames_complete_witness :
  List.length (extract_frames Sample.two_scene_video 0 4) = 5%nat.
Proof.
  apply (extract_frames_complete nat Sample.two_scene_video 0 4).
  intros t Ht. unfold decodes. simpl. unfold Sample.ten_frames.
  replace (0 <=? t)%Z with true by (symmetry; apply Z.leb_le; lia).
  replace (t <? 10)%Z with true by (symmetry; apply Z.ltb_lt; lia).
  reflexivity.
Defined.

(** Frames 10 to 12 are past the end of the sample video. *)
Lemma undecodable_scene_scores_sentinel_witness :
  extract_frames Sample.two_scene_video 10 12 = [] /\
  process_scene (extract_frames Sample.two_scene_video 10 12)
    (Some (mkTensor 3 [4])) = -1.
Proof.
  apply (undecodable_scene_scores_sentinel nat Sample.caption Sample.clip
           Sample.two_scene_video 10 12 (Some (mkTensor 3 [4]))).
  intros t Ht. simpl. unfold Sample.ten_frames.
  replace (t <? 10)%Z with false by (symmetry; apply Z.ltb_ge; lia).
  rewrite andb_false_r. reflexivity.
Defined.

(** An empty query with a video, and a query without a video. *)
Lemma gradio_rejects_missing_input_witness :
  process_video_with_gradio nat Sample.caption Sample.clip false
    Sample.writer (Some Sample.two_scene_video) "" "t"
  = Some (None,
          Some "Query and Video are required. Please enter a search term.")
  /\
  process_video_with_gradio nat Sample.caption Sample.clip true
    Sample.writer None "dog" "t"
  = Some (None,
          Some "Query and Video are required. Please enter a search term.").
Proof.
  split.
  - apply (gradio_rejects_missing_input nat Sample.caption Sample.clip
             false Sample.writer (Some Sample.two_scene_video) "" "t").
    right. reflexivity.
  - apply (gradio_rejects_missing_input nat Sample.caption Sample.clip
             true Sample.writer None "dog" "t"). left. reflexivity.
Defined.

(** The sample video with the query "dog": the name of the clip and no
    message; no writer opens for the name "output_t" and no file is
    left. *)
Lemma gradio_outcomes_witness :
  truthy "dog" = true /\
  Sample.writer Sample.two_scene_video "output_t" = false /\
  process_video nat Sample.caption Sample.clip Sample.writer
    Sample.two_scene_video "dog" "output_t"
  = Ok {| returned := Some "output_t"; written := [] |} /\
  process_video_with_gradio nat Sample.caption Sample.clip true
    Sample.writer (Some Sample.two_scene_video) "dog" "t"
  = Some (Some "output_t", None).
Proof.
  split; [reflexivity |]. split; [reflexivity |].
  destruct (gradio_outcomes nat Sample.caption Sample.clip true Sample.writer
              Sample.two_scene_video "dog" "t" eq_refl)
    as [[[Hl | Ho] _] | [(_ & _ & Hp & _) | (_ & _ & (frames & Hp) & Hg)]].
  - discriminate Hl.
  - discriminate Ho.
  - discriminate Hp.
  - split; [| exact Hg].
    change ("output_" ++ "t") with "output_t" in Hp. rewrite Hp. reflexivity.
Defined.

(** The sample video has one cut, at frame 4, and ten frames. *)
Lemma detect_scenes_divides_at_cuts_witness :
  exists scene_list,
    detect_scenes Sample.two_scene_video = Ok scene_list /\
    map fst scene_list = [0; 4]%Z /\
    map snd scene_list = [4; 10]%Z.
Proof.
  apply (detect_scenes_divides_at_cuts nat Sample.two_scene_video 4 []
           eq_refl eq_refl).
Defined.

(** Frame 4 of the sample video is sampled for both of its scenes. *)
Lemma cut_frame_sampled_twice_witness :
  In 4%nat (extract_frames Sample.two_scene_video 0 4) /\
  In 4%nat (extract_frames Sample.two_scene_video 4 10).
Proof.
  apply (cut_frame_sampled_twice nat Sample.two_scene_video
           [(0, 4); (4, 10)]%Z 0 0 4 4 10 4%nat);
    try reflexivity; discriminate.
Defined.

(** A video with a cut of which no frame decodes. *)
Lemma undecodable_video_gives_no_match_witness :
  process_video nat Sample.caption Sample.clip Sample.writer
    {| can_open := true; frame_count := 10; content_cuts := [4%Z];
       frame_at := fun _ => None |} "dog" "out.mp4"
  = Ok {| returned := None; written := [] |}.
Proof.
  apply (undecodable_video_gives_no_match nat Sample.caption Sample.clip
           Sample.writer
           {| can_open := true; frame_count := 10; content_cuts := [4%Z];
              frame_at := fun _ => None |} "dog" "out.mp4" eq_refl).
  intros t. reflexivity.
Defined.

End MoreOnSample.
